(** * perp-microstructure-depth: rotating JSONL writer and L2 normalizer

    A shallow embedding of
      - [src/ingestion/writers/rotating_jsonl_writer.py]  (module [Writer])
      - [src/pipelines/normalize_l2.py]                   (modules [Dec]
        and [Normalize])
    together with the properties of the specification that concern them.

    Conventions.  Python [int] is [Z]; Python [float] is IEEE binary64, i.e.
    Rocq's primitive [float]; [bytes] is [list byte]; [str] is [string];
    a [dict] is a [gmap]; [None] for an [Optional] is [None].  A directory is
    the finite map from the names of its files to their contents.  Operating
    system failures (permissions, full disk) are not modelled. *)

From Stdlib Require Import ZArith Lia List Strings.String Strings.Ascii Strings.Byte.
From Stdlib Require Import Floats.PrimFloat Floats.SpecFloat Floats.FloatOps Floats.FloatAxioms.
From stdpp Require Import gmap strings list.

Local Open Scope Z_scope.

(** Python [bytes]. *)
Abbreviation bytes := (list byte).

(** [b"".join(chunks)] *)
Definition join (chunks : list bytes) : bytes := concat chunks.

(* ===================================================================== *)
(** * The rotating writer                                                 *)
(* ===================================================================== *)

Module Writer.

Definition BATCH_SIZE : Z := 2000.
Definition FLUSH_INTERVAL_SEC : float := 0.5%float.

Record WriteItem := { bucket : Z; line : bytes }.

(** The operations the writer performs on the output directory, in the
    order it performs them. *)
Inductive io_event :=
| EvMkdir
| EvOpenAppend (name : string)
| EvWrite (name : string) (data : bytes)
| EvFlush (name : string)
| EvClose (name : string)
| EvReplace (src dst : string).

(** An open binary file object: the name it was opened under and the bytes
    handed to [fp.write] that [fp.flush] has not yet pushed to the file. *)
Record file_obj := { f_name : string; f_pending : bytes }.

(** The writer object together with the directory it writes into. *)
Record state := {
  current_bucket : option Z;
  fp : option file_obj;
  tmp_path : option string;
  final_path : option string;
  buffer : list bytes;
  last_flush : float;
  files : gmap string bytes;
  trace : list io_event
}.

Definition log (e : io_event) (s : state) : state :=
  {| current_bucket := current_bucket s; fp := fp s; tmp_path := tmp_path s;
     final_path := final_path s; buffer := buffer s;
     last_flush := last_flush s; files := files s;
     trace := trace s ++ [e] |}.

(** [path.open("ab")]: the file is created empty when absent and is kept as
    it is otherwise; every later write lands at its end. *)
Definition open_append (name : string) (fs : gmap string bytes)
  : gmap string bytes :=
  match fs !! name with
  | Some _ => fs
  | None => <[name := []]> fs
  end.

(** [src.replace(dst)]: atomic rename, an existing [dst] is overwritten. *)
Definition replace (src dst : string) (fs : gmap string bytes)
  : gmap string bytes :=
  match fs !! src with
  | Some c => <[dst := c]> (delete src fs)
  | None => fs
  end.

(** [fp.write(data)] *)
Definition fp_write (data : bytes) (s : state) : state :=
  match fp s with
  | None => s
  | Some f =>
      log (EvWrite (f_name f) data)
        {| current_bucket := current_bucket s;
           fp := Some {| f_name := f_name f;
                         f_pending := f_pending f ++ data |};
           tmp_path := tmp_path s; final_path := final_path s;
           buffer := buffer s; last_flush := last_flush s;
           files := files s; trace := trace s |}
  end.

(** [fp.flush()] *)
Definition fp_flush (s : state) : state :=
  match fp s with
  | None => s
  | Some f =>
      log (EvFlush (f_name f))
        {| current_bucket := current_bucket s;
           fp := Some {| f_name := f_name f; f_pending := [] |};
           tmp_path := tmp_path s; final_path := final_path s;
           buffer := buffer s; last_flush := last_flush s;
           files := <[f_name f :=
                        default [] (files s !! f_name f) ++ f_pending f]>
                      (files s);
           trace := trace s |}
  end.

(** [fp.close()]: whatever is pending is flushed first. *)
Definition fp_close (s : state) : state :=
  match fp s with
  | None => s
  | Some f =>
      log (EvClose (f_name f))
        {| current_bucket := current_bucket s; fp := fp s;
           tmp_path := tmp_path s; final_path := final_path s;
           buffer := buffer s; last_flush := last_flush s;
           files := <[f_name f :=
                        default [] (files s !! f_name f) ++ f_pending f]>
                      (files s);
           trace := trace s |}
  end.

Definition clear_buffer (s : state) : state :=
  {| current_bucket := current_bucket s; fp := fp s; tmp_path := tmp_path s;
     final_path := final_path s; buffer := [];
     last_flush := last_flush s; files := files s; trace := trace s |}.

Section WithFilenames.

(** [filename_fn], the map from a bucket to the name of its file. *)
Variable filename_fn : Z → string.

(** [RotatingJSONLWriter.__init__]; [t0] is the reading of [time.time()],
    [dir] the present content of [out_dir]. *)
Definition init (t0 : float) (dir : gmap string bytes) : state :=
  {| current_bucket := None; fp := None; tmp_path := None;
     final_path := None; buffer := []; last_flush := t0;
     files := dir; trace := [] |}.

(** [_open_for_bucket] *)
Definition _open_for_bucket (b : Z) (s : state) : state :=
  let s := log EvMkdir s in
  let name := filename_fn b in
  let tmp := name +:+ ".tmp" in
  log (EvOpenAppend tmp)
    {| current_bucket := Some b;
       fp := Some {| f_name := tmp; f_pending := [] |};
       tmp_path := Some tmp; final_path := Some name;
       buffer := buffer s; last_flush := last_flush s;
       files := open_append tmp (files s); trace := trace s |}.

(** [_close_and_finalize] *)
Definition _close_and_finalize (s : state) : state :=
  match fp s with
  | None => s
  | Some _ =>
      let s := match buffer s with
               | [] => s
               | _ :: _ => clear_buffer (fp_write (join (buffer s)) s)
               end in
      let s := fp_flush s in
      let s := fp_close s in
      let s := match tmp_path s, final_path s with
               | Some t, Some f =>
                   log (EvReplace t f)
                     {| current_bucket := current_bucket s; fp := fp s;
                        tmp_path := tmp_path s; final_path := final_path s;
                        buffer := buffer s; last_flush := last_flush s;
                        files := replace t f (files s); trace := trace s |}
               | _, _ => s
               end in
      {| current_bucket := None; fp := None; tmp_path := None;
         final_path := None; buffer := buffer s;
         last_flush := last_flush s; files := files s; trace := trace s |}
  end.

(** The flush test of [write]:
    [len(self.buffer) >= BATCH_SIZE or (now - self.last_flush) >= FLUSH_INTERVAL_SEC] *)
Definition flush_due (s : state) (now : float) : bool :=
  (BATCH_SIZE <=? Z.of_nat (length (buffer s)))
  || PrimFloat.leb FLUSH_INTERVAL_SEC (PrimFloat.sub now (last_flush s)).

(** [write]; [now] is the reading of [time.time()] inside the call. *)
Definition write (item : WriteItem) (now : float) (s : state) : state :=
  let s := match current_bucket s with
           | None => _open_for_bucket (bucket item) (_close_and_finalize s)
           | Some b =>
               if decide (bucket item ≠ b)
               then _open_for_bucket (bucket item) (_close_and_finalize s)
               else s
           end in
  let s := {| current_bucket := current_bucket s; fp := fp s;
              tmp_path := tmp_path s; final_path := final_path s;
              buffer := buffer s ++ [line item];
              last_flush := last_flush s; files := files s;
              trace := trace s |} in
  if flush_due s now then
    let s := fp_write (join (buffer s)) s in
    let s := fp_flush s in
    let s := clear_buffer s in
    {| current_bucket := current_bucket s; fp := fp s;
       tmp_path := tmp_path s; final_path := final_path s;
       buffer := buffer s; last_flush := now; files := files s;
       trace := trace s |}
  else s.

(** [close] *)
Definition close (s : state) : state := _close_and_finalize s.

(** A run of [write] calls, each with the clock reading it observes. *)
Definition writes (calls : list (WriteItem * float)) (s : state) : state :=
  fold_left (λ s c, write (fst c) (snd c) s) calls s.

End WithFilenames.

End Writer.

(* ===================================================================== *)
(** * Exceptions                                                          *)
(* ===================================================================== *)

(** The Python exceptions that the modelled code can meet. *)
Inductive exn :=
| TypeError | KeyError | IndexError | ValueError | OverflowError
| InvalidOperation      (* decimal.InvalidOperation, trapped *)
| Overflow              (* decimal.Overflow, trapped *)
| JSONEncodeError       (* orjson.JSONEncodeError *)
| FileNotFoundError.

(** A computation that returns or raises. *)
Inductive exc (A : Type) :=
| Ok (a : A)
| Raise (e : exn).
Arguments Ok {A} a.
Arguments Raise {A} e.

#[global] Instance exc_ret : MRet exc := λ A a, Ok a.
#[global] Instance exc_bind : MBind exc := λ A B f m,
  match m with
  | Ok a => f a
  | Raise e => Raise e
  end.

(** [raises m]: the computation ends in an exception. *)
Definition raises {A} (m : exc A) : Prop := ∃ e, m = Raise e.

(* ===================================================================== *)
(** * Python's [decimal], as far as [to_fp] uses it                       *)
(* ===================================================================== *)

(** The arithmetic follows the General Decimal Arithmetic rules as the
    module's reference implementation spells them out.  A [str] is read
    as its sequence of characters, each with a code below 256. *)
Module Dec.

(** A [Decimal]: [(-1)^sign * coeff * 10^exp] with [0 <= coeff], an
    infinity, or a quiet or signaling NaN. *)
Inductive decimal :=
| Finite (sign : bool) (coeff : Z) (exp : Z)
| Infinity (sign : bool)
| NaN (sign : bool) (signaling : bool).

(** The context: [getcontext().prec = 50] over the default context
    (ROUND_HALF_EVEN, Emax = 999999, Emin = -999999, clamp = 0; the traps
    InvalidOperation, DivisionByZero and Overflow are enabled). *)
Definition prec : Z := 50.
Definition Emax : Z := 999999.
Definition Emin : Z := -999999.
Definition Etiny : Z := Emin - prec + 1.
Definition Etop : Z := Emax - prec + 1.

(** ** Digits *)

Fixpoint ndigits_aux (fuel : nat) (c : Z) : Z :=
  match fuel with
  | O => 1
  | S fuel => if c <? 10 then 1 else 1 + ndigits_aux fuel (c / 10)
  end.

(** [len(str(c))] for [0 <= c]. *)
Definition ndigits (c : Z) : Z := ndigits_aux (Z.to_nat (Z.log2 c)) c.

(** Whether dropping the last [k >= 1] digits of [c] rounds up
    ([_round_half_even] returning 1): the dropped part is above one half of
    a unit of the kept part, or is exactly one half and the kept part is
    odd. *)
Definition rounds_up (c k : Z) : bool :=
  let q := c / 10 ^ k in
  let r := c mod 10 ^ k in
  let half := 5 * 10 ^ (k - 1) in
  (half <? r) || ((r =? half) && Z.odd q).

(** ** The constructor on a [str] *)

Definition code (c : ascii) : Z := Z.of_N (N_of_ascii c).

Definition is_digit (c : ascii) : bool := (48 <=? code c) && (code c <=? 57).

Definition digit_val (c : ascii) : Z := code c - 48.

(** [str.isspace] on one character. *)
Definition is_space (c : ascii) : bool :=
  let n := code c in
  ((9 <=? n) && (n <=? 13)) || ((28 <=? n) && (n <=? 32))
  || (n =? 133) || (n =? 160).

Definition lower (c : ascii) : ascii :=
  if (65 <=? code c) && (code c <=? 90)
  then ascii_of_N (N_of_ascii c + 32) else c.

Fixpoint lstrip (s : list ascii) : list ascii :=
  match s with
  | c :: s' => if is_space c then lstrip s' else s
  | [] => []
  end.

(** [value.strip()] *)
Definition strip (s : list ascii) : list ascii :=
  rev (lstrip (rev (lstrip s))).

(** [.replace("_", "")] *)
Definition remove_underscores (s : list ascii) : list ascii :=
  filter (λ c, c ≠ "_"%char) s.

(** The longest run of digits at the front, and what follows it. *)
Fixpoint span_digits (s : list ascii) : list ascii * list ascii :=
  match s with
  | c :: s' =>
      if is_digit c
      then let '(ds, rest) := span_digits s' in (c :: ds, rest)
      else ([], s)
  | [] => ([], [])
  end.

(** [int(digits)] *)
Definition digits_value (ds : list ascii) : Z :=
  fold_left (λ acc c, 10 * acc + digit_val c) ds 0.

Definition parse_sign (s : list ascii) : bool * list ascii :=
  match s with
  | "-"%char :: r => (true, r)
  | "+"%char :: r => (false, r)
  | _ => (false, s)
  end.

(** The rest after the digits of the coefficient: nothing, or the letter
    E, an optional sign and at least one digit, up to the end. *)
Definition parse_exponent (s : list ascii) : option Z :=
  match s with
  | [] => Some 0
  | c :: r =>
      if decide (lower c = "e"%char) then
        let '(neg, r) := parse_sign r in
        let '(ds, rest) := span_digits r in
        match ds, rest with
        | _ :: _, [] => Some (if neg then - digits_value ds else digits_value ds)
        | _, _ => None
        end
      else None
  end.

(** The fractional part: a point and the digits after it, if any. *)
Definition parse_fraction (s : list ascii) : list ascii * list ascii :=
  match s with
  | c :: r => if decide (c = "."%char) then span_digits r else ([], s)
  | [] => ([], s)
  end.

(** A number: digits, optionally a point and more digits, with at least
    one digit in all, then optionally an exponent. *)
Definition parse_finite (sg : bool) (s : list ascii) : option decimal :=
  let '(intpart, r) := span_digits s in
  let '(fracpart, r) := parse_fraction r in
  match intpart ++ fracpart with
  | [] => None
  | _ :: _ =>
      match parse_exponent r with
      | Some e =>
          Some (Finite sg (digits_value (intpart ++ fracpart))
                  (e - Z.of_nat (length fracpart)))
      | None => None
      end
  end.

(** Inf, Infinity, or NaN or sNaN followed by digits, whatever the case
    of the letters. *)
Definition parse_special (sg : bool) (s : list ascii) : option decimal :=
  let l := map lower s in
  if decide (l = list_ascii_of_string "inf"
             ∨ l = list_ascii_of_string "infinity")
  then Some (Infinity sg)
  else if decide (take 3 l = list_ascii_of_string "nan"
                  ∧ snd (span_digits (drop 3 l)) = [])
  then Some (NaN sg false)
  else if decide (take 4 l = list_ascii_of_string "snan"
                  ∧ snd (span_digits (drop 4 l)) = [])
  then Some (NaN sg true)
  else None.

(** [Decimal(value)] for a [str]; a string that is no numeric string
    signals ConversionSyntax, an InvalidOperation, which is trapped. *)
Definition of_string (value : string) : exc decimal :=
  let s := remove_underscores (strip (list_ascii_of_string value)) in
  let '(sg, r) := parse_sign s in
  match parse_finite sg r with
  | Some d => Ok d
  | None =>
      match parse_special sg r with
      | Some d => Ok d
      | None => Raise InvalidOperation
      end
  end.

(** [Decimal(n)] for an [int]. *)
Definition of_int (n : Z) : decimal := Finite (n <? 0) (Z.abs n) 0.

(** ** Rounding to the context: [_fix] *)

Definition _fix (d : decimal) : exc decimal :=
  match d with
  | Finite sg c e =>
      if c =? 0 then
        Ok (Finite sg 0 (Z.min (Z.max e Etiny) Emax))
      else
        let len := ndigits c in
        let exp_min := len + e - prec in
        if Etop <? exp_min then Raise Overflow
        else
          let self_is_subnormal := exp_min <? Etiny in
          let exp_min := if self_is_subnormal then Etiny else exp_min in
          if e <? exp_min then
            let digits := len + e - exp_min in
            (* if digits < 0: self = 10**(exp_min-1), digits = 0 *)
            let '(c0, dropped) :=
              if digits <? 0 then (1, 1) else (c, exp_min - e) in
            let coeff := c0 / 10 ^ dropped in
            let '(coeff, exp_min) :=
              if rounds_up c0 dropped then
                if prec <? ndigits (coeff + 1)
                then ((coeff + 1) / 10, exp_min + 1)
                else (coeff + 1, exp_min)
              else (coeff, exp_min) in
            if Etop <? exp_min then Raise Overflow
            else Ok (Finite sg coeff exp_min)
          else Ok d
  | _ => Ok d
  end.

(** ** [*], [to_integral_exact], [int] *)

(** [self * other] with a finite [other]. *)
Definition mul (a : decimal) (b : decimal) : exc decimal :=
  match a, b with
  | NaN _ true, _ | _, NaN _ true => Raise InvalidOperation
  | NaN sg false, _ => Ok (NaN sg false)
  | _, NaN sg false => Ok (NaN sg false)
  | Infinity s1, Finite s2 c _ =>
      if c =? 0 then Raise InvalidOperation else Ok (Infinity (xorb s1 s2))
  | Finite s1 c _, Infinity s2 =>
      if c =? 0 then Raise InvalidOperation else Ok (Infinity (xorb s1 s2))
  | Infinity s1, Infinity s2 => Ok (Infinity (xorb s1 s2))
  | Finite s1 c1 e1, Finite s2 c2 e2 =>
      _fix (Finite (xorb s1 s2) (c1 * c2) (e1 + e2))
  end.

(** [_rescale(exp, ROUND_HALF_EVEN)] on a finite number. *)
Definition _rescale (exp : Z) (sg : bool) (c e : Z) : decimal :=
  if c =? 0 then Finite sg 0 exp
  else if exp <=? e then Finite sg (c * 10 ^ (e - exp)) exp
  else
    let digits := ndigits c + e - exp in
    (* if digits < 0: self = 10**(exp-1), digits = 0 *)
    let '(c0, dropped) := if digits <? 0 then (1, 1) else (c, exp - e) in
    let coeff := c0 / 10 ^ dropped in
    Finite sg (if rounds_up c0 dropped then coeff + 1 else coeff) exp.

Definition to_integral_exact (d : decimal) : exc decimal :=
  match d with
  | NaN _ true => Raise InvalidOperation
  | NaN _ false => Ok d
  | Infinity _ => Ok d
  | Finite sg c e =>
      if 0 <=? e then Ok d
      else if c =? 0 then Ok (Finite sg 0 0)
      else Ok (_rescale 0 sg c e)
  end.

(** [int(d)] *)
Definition to_int (d : decimal) : exc Z :=
  match d with
  | NaN _ _ => Raise ValueError
  | Infinity _ => Raise OverflowError
  | Finite sg c e =>
      let s := if sg then -1 else 1 in
      if 0 <=? e then Ok (s * c * 10 ^ e)
      else Ok (s * (c / 10 ^ (- e)))
  end.

End Dec.

(* ===================================================================== *)
(** * The normalizer                                                      *)
(* ===================================================================== *)

Module Normalize.

Definition PRICE_SCALE : Z := 10 ^ 8.
Definition QTY_SCALE : Z := 10 ^ 8.

(** ** Fixed-point helpers *)

(** [to_fp], for [x] a [str] as annotated. *)
Definition to_fp (x : string) (scale : Z) : exc Z :=
  d ← Dec.of_string x;
  p ← Dec.mul d (Dec.of_int scale);
  r ← Dec.to_integral_exact p;
  Dec.to_int r.

(** ** Decoded JSON *)

(** What [orjson.loads] returns: [None], [bool], [int], [float], [str],
    [list], and [dict] with [str] keys, in insertion order and without
    repeated keys. *)
#[local] Unset Elimination Schemes.
Inductive value :=
| VNone
| VBool (b : bool)
| VInt (n : Z)
| VFloat (f : float)
| VStr (s : string)
| VList (l : list value)
| VDict (kv : list (string * value)).
#[local] Set Elimination Schemes.

Fixpoint assoc (k : string) (kv : list (string * value)) : option value :=
  match kv with
  | [] => None
  | (k', v) :: kv => if String.eqb k k' then Some v else assoc k kv
  end.

(** [k in raw] for a [str] [k]. *)
Definition contains (raw : value) (k : string) : exc bool :=
  match raw with
  | VDict kv => Ok (match assoc k kv with Some _ => true | None => false end)
  | VList l =>
      Ok (existsb (λ x, match x with
                        | VStr s => String.eqb s k
                        | _ => false
                        end) l)
  | VStr s => Ok (match String.index 0 k s with
                  | Some _ => true
                  | None => false
                  end)
  | VNone | VBool _ | VInt _ | VFloat _ => Raise TypeError
  end.

(** [raw[k]] for a [str] [k]. *)
Definition getitem (raw : value) (k : string) : exc value :=
  match raw with
  | VDict kv => match assoc k kv with
                | Some v => Ok v
                | None => Raise KeyError
                end
  | _ => Raise TypeError
  end.

(** [level[i]] for a literal index [i >= 0]. *)
Definition getindex (level : value) (i : nat) : exc value :=
  match level with
  | VList l => match l !! i with
               | Some v => Ok v
               | None => Raise IndexError
               end
  | VStr s => match String.get i s with
              | Some c => Ok (VStr (String c EmptyString))
              | None => Raise IndexError
              end
  | VDict _ => Raise KeyError
  | VNone | VBool _ | VInt _ | VFloat _ => Raise TypeError
  end.

(** The elements that [for l in v] visits. *)
Definition iterate (v : value) : exc (list value) :=
  match v with
  | VList l => Ok l
  | VStr s => Ok (map (λ c, VStr (String c EmptyString)) (list_ascii_of_string s))
  | VDict kv => Ok (map (λ p, VStr (fst p)) kv)
  | VNone | VBool _ | VInt _ | VFloat _ => Raise TypeError
  end.

Definition int_of_bool (b : bool) : Z := if b then 1 else 0.

(** [float(n)], the binary64 number nearest to the [int] [n] (the source
    only has the literals [1] and [1_000_000] here, which are exact). *)
Definition float_of_int (n : Z) : float :=
  SF2Prim (binary_normalize FloatOps.prec FloatOps.emax n 0 false).

(** [v * n] for an [int] [n]. *)
Definition py_mul_int (v : value) (n : Z) : exc value :=
  match v with
  | VInt m => Ok (VInt (m * n))
  | VBool b => Ok (VInt (int_of_bool b * n))
  | VFloat f => Ok (VFloat (PrimFloat.mul f (float_of_int n)))
  | VStr s => Ok (VStr (String.concat "" (repeat s (Z.to_nat n))))
  | VList l => Ok (VList (concat (repeat l (Z.to_nat n))))
  | VNone | VDict _ => Raise TypeError
  end.

(** [v + n] for an [int] [n]. *)
Definition py_add_int (v : value) (n : Z) : exc value :=
  match v with
  | VInt m => Ok (VInt (m + n))
  | VBool b => Ok (VInt (int_of_bool b + n))
  | VFloat f => Ok (VFloat (PrimFloat.add f (float_of_int n)))
  | VNone | VStr _ | VList _ | VDict _ => Raise TypeError
  end.

(** Numbers: [int] (with [bool]) and [float]. *)
Inductive num :=
| NInt (n : Z)
| NFloat (f : float).

Definition as_num (v : value) : option num :=
  match v with
  | VInt n => Some (NInt n)
  | VBool b => Some (NInt (int_of_bool b))
  | VFloat f => Some (NFloat f)
  | _ => None
  end.

(** [n <= f] and [f <= n] between an [int] and a [float]: Python compares
    the exact values. *)
Definition int_le_float (n : Z) (f : float) : bool :=
  match Prim2SF f with
  | S754_nan => false
  | S754_infinity s => negb s
  | S754_zero _ => n <=? 0
  | S754_finite s m e =>
      let v := if s then Z.neg m else Z.pos m in
      if 0 <=? e then n <=? v * 2 ^ e else n * 2 ^ (- e) <=? v
  end.

Definition float_le_int (f : float) (n : Z) : bool :=
  match Prim2SF f with
  | S754_nan => false
  | S754_infinity s => s
  | S754_zero _ => 0 <=? n
  | S754_finite s m e =>
      let v := if s then Z.neg m else Z.pos m in
      if 0 <=? e then v * 2 ^ e <=? n else v <=? n * 2 ^ (- e)
  end.

Definition num_le (a b : num) : bool :=
  match a, b with
  | NInt x, NInt y => x <=? y
  | NInt x, NFloat g => int_le_float x g
  | NFloat f, NInt y => float_le_int f y
  | NFloat f, NFloat g => PrimFloat.leb f g
  end.

(** [a <= b] where one of the two is a number: any other operand on the
    other side is a [TypeError]. *)
Definition py_le (a b : value) : exc bool :=
  match as_num a, as_num b with
  | Some x, Some y => Ok (num_le x y)
  | _, _ => Raise TypeError
  end.

(** ** Schema validation *)

Definition required : list string :=
  ["exchange"; "symbol"; "conn_id"; "recv_ts_ns"; "event_ts_ms";
   "U"; "u"; "b"; "a"].

Fixpoint has_all (raw : value) (ks : list string) : exc bool :=
  match ks with
  | [] => Ok true
  | k :: ks =>
      c ← contains raw k;
      if c : bool then has_all raw ks else Ok false
  end.

(** [is_depth_delta] *)
Definition is_depth_delta (raw : value) : exc bool := has_all raw required.

(** ** Top of book *)

Record TopBook := { bids : gmap Z Z; asks : gmap Z Z }.

(** [TopBook()] *)
Definition empty_book : TopBook := {| bids := ∅; asks := ∅ |}.

(** One level of one side: [if q == 0: side.pop(p, None) else: side[p] = q] *)
Definition apply_level (side : gmap Z Z) (l : Z * Z) : gmap Z Z :=
  let '(p, q) := l in
  if q =? 0 then delete p side else <[p := q]> side.

Definition apply_levels (side : gmap Z Z) (ls : list (Z * Z)) : gmap Z Z :=
  fold_left apply_level ls side.

(** [TopBook.apply], on the bid and the ask levels of the delta. *)
Definition apply (b a : list (Z * Z)) (book : TopBook) : TopBook :=
  {| bids := apply_levels (bids book) b;
     asks := apply_levels (asks book) a |}.

Definition keys (m : gmap Z Z) : list Z := (map_to_list m).*1.

(** [max(m)] and [min(m)] of a non-empty dict. *)
Definition max_key (m : gmap Z Z) : option Z :=
  match keys m with
  | [] => None
  | k :: ks => Some (fold_left Z.max ks k)
  end.

Definition min_key (m : gmap Z Z) : option Z :=
  match keys m with
  | [] => None
  | k :: ks => Some (fold_left Z.min ks k)
  end.

(** [not m] *)
Definition is_empty (m : gmap Z Z) : bool :=
  match keys m with
  | [] => true
  | _ :: _ => false
  end.

(** [TopBook.best] *)
Definition best (book : TopBook) : option (Z * Z * Z * Z) :=
  if is_empty (bids book) || is_empty (asks book) then None
  else
    best_bid ← max_key (bids book);
    best_ask ← min_key (asks book);
    bid_sz ← bids book !! best_bid;
    ask_sz ← asks book !! best_ask;
    Some (best_bid, bid_sz, best_ask, ask_sz).

(** [mid_fp]; [//] is floor division, as [Z.div] is. *)
Definition mid_fp (bid ask : Z) : Z := (bid + ask) / 2.

(** [micro_fp] *)
Definition micro_fp (bid bid_sz ask ask_sz : Z) : Z :=
  let den := bid_sz + ask_sz in
  if den <=? 0 then mid_fp bid ask
  else
    let num := ask * bid_sz + bid * ask_sz in
    num / den.

(** ** Audit *)

Record gap := { g_prev_u : value; g_U : value; g_u : value; g_line : Z }.

Module Audit.
Record t := {
  raw_lines : Z;
  kept_lines : Z;
  bad_json : Z;
  skipped_schema : Z;
  normalize_errors : Z;
  continuity_ok : bool;
  gaps : Z;
  first_gap : option gap
}.

(** [Audit()] *)
Definition new : t :=
  {| raw_lines := 0; kept_lines := 0; bad_json := 0; skipped_schema := 0;
     normalize_errors := 0; continuity_ok := true; gaps := 0;
     first_gap := None |}.
End Audit.

(** [continuity_ok] *)
Definition continuity_ok (prev_u U u : value) : exc bool :=
  match prev_u with
  | VNone => Ok true
  | _ =>
      t ← py_add_int prev_u 1;
      c ← py_le U t;
      if c : bool then py_le t u else Ok false
  end.

(** ** The normalized delta *)

Record delta := {
  d_exchange : value;
  d_symbol : value;
  d_conn_id : value;
  d_recv_ts_ns : value;
  d_event_ts_ns : value;
  d_U : value;
  d_u : value;
  d_b : list (Z * Z);
  d_a : list (Z * Z)
}.

(** The record written to the price output. *)
Record price_record := {
  px_exchange : value;
  px_symbol : value;
  px_recv_ts_ns : value;
  px_event_ts_ns : value;
  px_best_bid : Z;
  px_bid_sz : Z;
  px_best_ask : Z;
  px_ask_sz : Z;
  px_mid : Z;
  px_micro : Z;
  px_price_scale : Z;
  px_qty_scale : Z
}.

(** ** What the program leaves to its libraries *)

Section Pass.

(** [orjson.loads]: [None] when it raises. *)
Variable loads : bytes → option value.

(** [orjson.dumps] on a normalized delta and on a price record: [None]
    when it raises (an [int] outside 64 bits, for one). *)
Variable dumps_delta : delta → option bytes.
Variable dumps_px : price_record → option bytes.

(** [to_fp] on an argument that is not a [str], outside its annotation:
    what [Decimal] makes of an [int], a [float] or a sequence. *)
Variable to_fp_other : value → Z → exc Z.

(** The text [json.dump] writes for the audit document, from the three
    paths, [created_at_unix] and the counters. *)
Variable dump_audit : string → string → string → Z → Audit.t → bytes.

(** ** Normalization *)

(** [to_fp] as [normalize_level] calls it, on whatever the level holds. *)
Definition to_fp_value (x : value) (scale : Z) : exc Z :=
  match x with
  | VStr s => to_fp s scale
  | _ => to_fp_other x scale
  end.

(** [normalize_level] *)
Definition normalize_level (level : value) : exc (Z * Z) :=
  x0 ← getindex level 0;
  price ← to_fp_value x0 PRICE_SCALE;
  x1 ← getindex level 1;
  qty ← to_fp_value x1 QTY_SCALE;
  Ok (price, qty).

(** [[normalize_level(l) for l in levels]] *)
Fixpoint normalize_levels (levels : list value) : exc (list (Z * Z)) :=
  match levels with
  | [] => Ok []
  | l :: ls =>
      x ← normalize_level l;
      xs ← normalize_levels ls;
      Ok (x :: xs)
  end.

(** [normalize_delta] *)
Definition normalize_delta (raw : value) : exc delta :=
  exchange ← getitem raw "exchange";
  symbol ← getitem raw "symbol";
  conn_id ← getitem raw "conn_id";
  recv_ts_ns ← getitem raw "recv_ts_ns";
  event_ts_ms ← getitem raw "event_ts_ms";
  event_ts_ns ← py_mul_int event_ts_ms 1000000;
  U ← getitem raw "U";
  u ← getitem raw "u";
  raw_b ← getitem raw "b";
  levels_b ← iterate raw_b;
  b ← normalize_levels levels_b;
  raw_a ← getitem raw "a";
  levels_a ← iterate raw_a;
  a ← normalize_levels levels_a;
  Ok {| d_exchange := exchange; d_symbol := symbol; d_conn_id := conn_id;
        d_recv_ts_ns := recv_ts_ns; d_event_ts_ns := event_ts_ns;
        d_U := U; d_u := u; d_b := b; d_a := a |}.

(** ** One pass over a raw file *)

(** The variables of the pass: the audit, the book, the continuity
    baseline ([VNone] for [None]) and what has been written to the
    normalized and to the price output. *)
Record pass := {
  audit : Audit.t;
  book : TopBook;
  prev_u : value;
  fnorm : bytes;
  fpx : bytes
}.

Definition start : pass :=
  {| audit := Audit.new; book := empty_book; prev_u := VNone;
     fnorm := []; fpx := [] |}.

Definition set_audit (a : Audit.t) (st : pass) : pass :=
  {| audit := a; book := book st; prev_u := prev_u st;
     fnorm := fnorm st; fpx := fpx st |}.

(** [audit.raw_lines += 1] and its like. *)
Definition count_raw_line (a : Audit.t) : Audit.t :=
  {| Audit.raw_lines := Audit.raw_lines a + 1;
     Audit.kept_lines := Audit.kept_lines a;
     Audit.bad_json := Audit.bad_json a;
     Audit.skipped_schema := Audit.skipped_schema a;
     Audit.normalize_errors := Audit.normalize_errors a;
     Audit.continuity_ok := Audit.continuity_ok a;
     Audit.gaps := Audit.gaps a;
     Audit.first_gap := Audit.first_gap a |}.

Definition count_bad_json (a : Audit.t) : Audit.t :=
  {| Audit.raw_lines := Audit.raw_lines a;
     Audit.kept_lines := Audit.kept_lines a;
     Audit.bad_json := Audit.bad_json a + 1;
     Audit.skipped_schema := Audit.skipped_schema a;
     Audit.normalize_errors := Audit.normalize_errors a;
     Audit.continuity_ok := Audit.continuity_ok a;
     Audit.gaps := Audit.gaps a;
     Audit.first_gap := Audit.first_gap a |}.

Definition count_skipped_schema (a : Audit.t) : Audit.t :=
  {| Audit.raw_lines := Audit.raw_lines a;
     Audit.kept_lines := Audit.kept_lines a;
     Audit.bad_json := Audit.bad_json a;
     Audit.skipped_schema := Audit.skipped_schema a + 1;
     Audit.normalize_errors := Audit.normalize_errors a;
     Audit.continuity_ok := Audit.continuity_ok a;
     Audit.gaps := Audit.gaps a;
     Audit.first_gap := Audit.first_gap a |}.

Definition count_normalize_error (a : Audit.t) : Audit.t :=
  {| Audit.raw_lines := Audit.raw_lines a;
     Audit.kept_lines := Audit.kept_lines a;
     Audit.bad_json := Audit.bad_json a;
     Audit.skipped_schema := Audit.skipped_schema a;
     Audit.normalize_errors := Audit.normalize_errors a + 1;
     Audit.continuity_ok := Audit.continuity_ok a;
     Audit.gaps := Audit.gaps a;
     Audit.first_gap := Audit.first_gap a |}.

Definition count_kept_line (a : Audit.t) : Audit.t :=
  {| Audit.raw_lines := Audit.raw_lines a;
     Audit.kept_lines := Audit.kept_lines a + 1;
     Audit.bad_json := Audit.bad_json a;
     Audit.skipped_schema := Audit.skipped_schema a;
     Audit.normalize_errors := Audit.normalize_errors a;
     Audit.continuity_ok := Audit.continuity_ok a;
     Audit.gaps := Audit.gaps a;
     Audit.first_gap := Audit.first_gap a |}.

(** The audit after a failed continuity check. *)
Definition record_gap (prev_u U u : value) (a : Audit.t) : Audit.t :=
  {| Audit.raw_lines := Audit.raw_lines a;
     Audit.kept_lines := Audit.kept_lines a;
     Audit.bad_json := Audit.bad_json a;
     Audit.skipped_schema := Audit.skipped_schema a;
     Audit.normalize_errors := Audit.normalize_errors a;
     Audit.continuity_ok := false;
     Audit.gaps := Audit.gaps a + 1;
     Audit.first_gap := match Audit.first_gap a with
       | None => Some {| g_prev_u := prev_u; g_U := U; g_u := u;
                         g_line := Audit.raw_lines a |}
       | Some g => Some g
       end |}.

Definition newline : bytes := [x0a].

(** The body of [for line in fin], after [audit.raw_lines += 1], from the
    continuity check on, for a line normalized to [d].  The result is the
    variables after the body and the exception that ended it, if any. *)
Definition process_kept (d : delta) (st : pass) : pass * option exn :=
  let st := set_audit (count_kept_line (audit st)) st in
  let U := d_U d in
  let u := d_u d in
  match continuity_ok (prev_u st) U u with
  | Raise e => (st, Some e)
  | Ok ok =>
      let st :=
        if ok then
          {| audit := audit st; book := book st; prev_u := u;
             fnorm := fnorm st; fpx := fpx st |}
        else
          {| audit := record_gap (prev_u st) U u (audit st);
             book := book st; prev_u := VNone;
             fnorm := fnorm st; fpx := fpx st |} in
      match dumps_delta d with
      | None => (st, Some JSONEncodeError)
      | Some out =>
          let st := {| audit := audit st;
                       book := apply (d_b d) (d_a d) (book st);
                       prev_u := prev_u st;
                       fnorm := fnorm st ++ out ++ newline;
                       fpx := fpx st |} in
          match best (book st) with
          | None => (st, None)
          | Some (bid, bid_sz, ask, ask_sz) =>
              let px := {| px_exchange := d_exchange d;
                           px_symbol := d_symbol d;
                           px_recv_ts_ns := d_recv_ts_ns d;
                           px_event_ts_ns := d_event_ts_ns d;
                           px_best_bid := bid; px_bid_sz := bid_sz;
                           px_best_ask := ask; px_ask_sz := ask_sz;
                           px_mid := mid_fp bid ask;
                           px_micro := micro_fp bid bid_sz ask ask_sz;
                           px_price_scale := PRICE_SCALE;
                           px_qty_scale := QTY_SCALE |} in
              match dumps_px px with
              | None => (st, Some JSONEncodeError)
              | Some out =>
                  ({| audit := audit st; book := book st;
                      prev_u := prev_u st; fnorm := fnorm st;
                      fpx := fpx st ++ out ++ newline |}, None)
              end
          end
      end
  end.

(** The body of [for line in fin]. *)
Definition process_line (line : bytes) (st : pass) : pass * option exn :=
  let st := set_audit (count_raw_line (audit st)) st in
  match loads line with
  | None => (set_audit (count_bad_json (audit st)) st, None)
  | Some raw =>
      match is_depth_delta raw with
      | Raise e => (st, Some e)
      | Ok false => (set_audit (count_skipped_schema (audit st)) st, None)
      | Ok true =>
          match normalize_delta raw with
          | Raise _ => (set_audit (count_normalize_error (audit st)) st, None)
          | Ok d => process_kept d st
          end
      end
  end.

(** [for line in fin: ...]; an exception leaves the loop. *)
Fixpoint process_lines (lines : list bytes) (st : pass) : pass * option exn :=
  match lines with
  | [] => (st, None)
  | line :: lines =>
      match process_line line st with
      | (st, None) => process_lines lines st
      | (st, Some e) => (st, Some e)
      end
  end.

(** The lines that iterating over a binary file gives: each ends with its
    newline, the last one may lack it. *)
Fixpoint iter_lines_from (cur : bytes) (data : bytes) : list bytes :=
  match data with
  | [] => match cur with
          | [] => []
          | _ :: _ => [cur]
          end
  | c :: data =>
      if Byte.eqb c x0a then (cur ++ [c]) :: iter_lines_from [] data
      else iter_lines_from (cur ++ [c]) data
  end.

Definition iter_lines (data : bytes) : list bytes := iter_lines_from [] data.

(** ** The files *)

(** The four directories of a symbol, each as the map from the names of
    its files to their contents.  [raw_dir] is taken to be none of the
    three output directories, as for every caller in the repository (it is
    named [raw]). *)
Record tree := {
  raw_dir : gmap string bytes;
  norm_dir : gmap string bytes;
  prices_dir : gmap string bytes;
  audit_dir : gmap string bytes
}.

Inductive outcome :=
| Skipped
| Completed
| Aborted (e : exn).

(** The body of [for raw_file in list_raw_files(raw_dir)], for the raw
    file [stem.jsonl]; [created_at] is [int(time.time())].  The files
    opened by the [with] statement are closed, and so hold what was written
    to them, also when an exception leaves it. *)
Definition process_raw_file (stem : string) (created_at : Z) (fs : tree)
  : outcome * tree :=
  let raw_file := stem +:+ ".jsonl" in
  let norm_file := stem +:+ ".fp.jsonl" in
  let prices_file := stem +:+ ".prices.jsonl" in
  let audit_file := stem +:+ ".audit.json" in
  match norm_dir fs !! norm_file, prices_dir fs !! prices_file,
        audit_dir fs !! audit_file with
  | Some _, Some _, Some _ => (Skipped, fs)
  | _, _, _ =>
      match raw_dir fs !! raw_file with
      | None => (Aborted FileNotFoundError, fs)
      | Some data =>
          let '(st, r) := process_lines (iter_lines data) start in
          let fs := {| raw_dir := raw_dir fs;
                       norm_dir := <[norm_file := fnorm st]> (norm_dir fs);
                       prices_dir := <[prices_file := fpx st]> (prices_dir fs);
                       audit_dir := audit_dir fs |} in
          match r with
          | Some e => (Aborted e, fs)
          | None =>
              (Completed,
               {| raw_dir := raw_dir fs; norm_dir := norm_dir fs;
                  prices_dir := prices_dir fs;
                  audit_dir :=
                    <[audit_file :=
                        dump_audit raw_file norm_file prices_file
                          created_at (audit st)]> (audit_dir fs) |})
          end
      end
  end.

End Pass.

End Normalize.

(* ===================================================================== *)
(** * Properties of the rotating writer                                   *)
(* ===================================================================== *)

Section WriterFacts.

Import Writer.

Variable filename_fn : Z → string.

Local Abbreviation tmp b := (filename_fn b +:+ ".tmp").

(** An event that moves data into a temp file: [fp.write] or [fp.flush]. *)
Definition data_event (t : string) (e : io_event) : Prop :=
  (∃ d, e = EvWrite t d) ∨ e = EvFlush t.

(** The writer is Closed. *)
Definition is_closed (s : state) : Prop :=
  current_bucket s = None ∧ fp s = None ∧ tmp_path s = None ∧
  final_path s = None ∧ buffer s = [].

(** The writer is Open on bucket [b]: [others] are the files of the
    directory apart from the temp file, [content] is what the temp file
    holds followed by what is still buffered in memory. *)
Definition is_open (b : Z) (others : gmap string bytes) (content : bytes)
    (s : state) : Prop :=
  current_bucket s = Some b ∧
  fp s = Some {| f_name := tmp b; f_pending := [] |} ∧
  tmp_path s = Some (tmp b) ∧ final_path s = Some (filename_fn b) ∧
  ∃ disk, files s = <[tmp b := disk]> others ∧
          disk ++ join (buffer s) = content.

Ltac fs_simpl :=
  repeat (progress (rewrite ?lookup_insert_eq, ?insert_insert_eq,
                      ?delete_insert_eq, ?app_nil_r; simpl)).

Lemma join_snoc (l : list bytes) (x : bytes) : join (l ++ [x]) = join l ++ x.
Proof. unfold join. rewrite concat_app. simpl. by rewrite app_nil_r. Qed.

Lemma open_append_insert (name : string) (fs : gmap string bytes) :
  open_append name fs = <[name := default [] (fs !! name)]> fs.
Proof.
  unfold open_append. destruct (fs !! name) eqn:E; simpl; [|done].
  by rewrite insert_id.
Qed.

Lemma init_closed t0 dir : is_closed (init t0 dir).
Proof. by repeat split. Qed.

Lemma open_closed b s :
  is_closed s →
  is_open b (files s) (default [] (files s !! tmp b)) (_open_for_bucket filename_fn b s) ∧
  trace (_open_for_bucket filename_fn b s) = trace s ++ [EvMkdir; EvOpenAppend (tmp b)] ∧
  last_flush (_open_for_bucket filename_fn b s) = last_flush s.
Proof.
  intros (_ & _ & _ & _ & Hb). unfold _open_for_bucket, is_open; simpl.
  repeat split; try done.
  - exists (default [] (files s !! tmp b)). rewrite Hb, open_append_insert.
    simpl. by rewrite app_nil_r.
  - by rewrite <- app_assoc.
Qed.

Lemma finalize_closed s : is_closed s → _close_and_finalize s = s.
Proof. intros (_ & Hf & _). unfold _close_and_finalize. by rewrite Hf. Qed.

Lemma finalize_open b others content s :
  is_open b others content s →
  is_closed (_close_and_finalize s) ∧
  files (_close_and_finalize s) = <[filename_fn b := content]> (delete (tmp b) others) ∧
  last_flush (_close_and_finalize s) = last_flush s ∧
  ∃ evs, Forall (data_event (tmp b)) evs ∧
    trace (_close_and_finalize s) =
      trace s ++ evs ++ [EvFlush (tmp b); EvClose (tmp b);
                          EvReplace (tmp b) (filename_fn b)].
Proof.
  intros (Hb & Hf & Ht & Hfin & disk & Hfiles & Hc).
  unfold _close_and_finalize. rewrite Hf.
  destruct (buffer s) as [|x xs] eqn:Hbuf.
  - unfold fp_flush. rewrite Hf. simpl. rewrite Ht, Hfin. simpl.
    rewrite Hfiles. unfold replace. fs_simpl.
    simpl in Hc. rewrite app_nil_r in Hc. subst disk.
    repeat split; try done.
    exists []. split; [constructor|]. simpl. by rewrite <- !app_assoc.
  - unfold fp_write. rewrite Hf. simpl. rewrite Ht, Hfin, Hfiles. simpl.
    unfold replace. fs_simpl. simpl in Hc. rewrite Hc. repeat split; try done.
    exists [EvWrite (tmp b) (join (x :: xs))]. split.
    + constructor; [|constructor]. left. by eexists.
    + simpl. by rewrite <- !app_assoc.
Qed.

(** The two halves of [write]: the bucket switch, then the buffering of
    the line with the flush test. *)
Definition switched (b : Z) (s : state) : state :=
  match current_bucket s with
  | None => _open_for_bucket filename_fn b (_close_and_finalize s)
  | Some b0 =>
      if decide (b ≠ b0)
      then _open_for_bucket filename_fn b (_close_and_finalize s)
      else s
  end.

Definition buffered (l : bytes) (now : float) (s : state) : state :=
  let s1 := {| current_bucket := current_bucket s; fp := fp s;
               tmp_path := tmp_path s; final_path := final_path s;
               buffer := buffer s ++ [l]; last_flush := last_flush s;
               files := files s; trace := trace s |} in
  if flush_due s1 now then
    let s := fp_write (join (buffer s1)) s1 in
    let s := fp_flush s in
    let s := clear_buffer s in
    {| current_bucket := current_bucket s; fp := fp s;
       tmp_path := tmp_path s; final_path := final_path s;
       buffer := buffer s; last_flush := now; files := files s;
       trace := trace s |}
  else s1.

Lemma write_unfold item now s :
  write filename_fn item now s =
  buffered (line item) now (switched (bucket item) s).
Proof. reflexivity. Qed.

Lemma write_buffered b others content (l : bytes) now s :
  is_open b others content s →
  is_open b others (content ++ l) (buffered l now s) ∧
  ∃ evs, Forall (data_event (tmp b)) evs ∧
         trace (buffered l now s) = trace s ++ evs.
Proof.
  intros (Hb & Hf & Ht & Hfin & disk & Hfiles & Hc).
  unfold buffered. simpl.
  match goal with |- context [flush_due ?x now] => destruct (flush_due x now) end.
  - unfold fp_write, fp_flush. simpl. rewrite Hf. simpl.
    rewrite Hfiles. fs_simpl. split.
    + repeat split; try done. eexists. split; [done|].
      fs_simpl. rewrite join_snoc, <- Hc. by rewrite !app_assoc.
    + exists [EvWrite (tmp b) (join (buffer s ++ [l])); EvFlush (tmp b)].
      split; [|by rewrite <- app_assoc].
      constructor; [left; by eexists|]. constructor; [by right|constructor].
  - split.
    + repeat split; try done. exists disk. simpl. split; [done|].
      rewrite join_snoc, <- Hc. by rewrite app_assoc.
    + exists []. split; [constructor|]. simpl. by rewrite app_nil_r.
Qed.

(** [write] of a line of the bucket that is open. *)
Lemma write_same b others content item now s :
  is_open b others content s → bucket item = b →
  is_open b others (content ++ line item) (write filename_fn item now s) ∧
  ∃ evs, Forall (data_event (tmp b)) evs ∧
         trace (write filename_fn item now s) = trace s ++ evs.
Proof.
  intros Ho Hi. pose proof Ho as (Hb & _).
  rewrite write_unfold. unfold switched. rewrite Hb.
  destruct (decide (bucket item ≠ b)); [done|].
  by apply write_buffered.
Qed.

(** [write] on a Closed writer: the bucket's temp file is opened first. *)
Lemma write_closed item now s :
  is_closed s →
  is_open (bucket item) (files s)
    (default [] (files s !! tmp (bucket item)) ++ line item)
    (write filename_fn item now s) ∧
  ∃ evs, Forall (data_event (tmp (bucket item))) evs ∧
         trace (write filename_fn item now s) =
           trace s ++ [EvMkdir; EvOpenAppend (tmp (bucket item))] ++ evs.
Proof.
  intros Hc. pose proof Hc as (Hb & _).
  rewrite write_unfold. unfold switched. rewrite Hb, (finalize_closed _ Hc).
  destruct (open_closed (bucket item) s Hc) as (Ho & Htr & _).
  destruct (write_buffered _ _ _ (line item) now _ Ho) as (Ho' & evs & Hev & Htr').
  split; [done|]. exists evs. split; [done|].
  rewrite Htr', Htr. by rewrite <- app_assoc.
Qed.

(** [write] of a line of another bucket than the open one: the open bucket
    is finalized, then the new temp file is opened. *)
Lemma write_other b others content item now s :
  is_open b others content s → bucket item ≠ b →
  let dir := <[filename_fn b := content]> (delete (tmp b) others) in
  is_open (bucket item) dir
    (default [] (dir !! tmp (bucket item)) ++ line item)
    (write filename_fn item now s) ∧
  ∃ evs evs', Forall (data_event (tmp b)) evs ∧
    Forall (data_event (tmp (bucket item))) evs' ∧
    trace (write filename_fn item now s) =
      trace s ++ evs ++
      [EvFlush (tmp b); EvClose (tmp b); EvReplace (tmp b) (filename_fn b);
       EvMkdir; EvOpenAppend (tmp (bucket item))] ++ evs'.
Proof.
  intros Ho Hne dir. pose proof Ho as (Hb & _).
  rewrite write_unfold. unfold switched. rewrite Hb.
  destruct (decide (bucket item ≠ b)); [|done].
  destruct (finalize_open _ _ _ _ Ho) as (Hc & Hfiles & _ & evs & Hev & Htr).
  destruct (open_closed (bucket item) _ Hc) as (Ho' & Htr' & _).
  destruct (write_buffered _ _ _ (line item) now _ Ho')
    as (Ho'' & evs' & Hev' & Htr'').
  rewrite Hfiles in Ho''. split; [done|]. exists evs, evs'.
  split; [done|]. split; [done|].
  rewrite Htr'', Htr', Htr. by rewrite <- !app_assoc.
Qed.

(** [close] on an Open writer. *)
Lemma close_open b others content s :
  is_open b others content s →
  is_closed (close s) ∧
  files (close s) = <[filename_fn b := content]> (delete (tmp b) others) ∧
  ∃ evs, Forall (data_event (tmp b)) evs ∧
    trace (close s) =
      trace s ++ evs ++ [EvFlush (tmp b); EvClose (tmp b);
                          EvReplace (tmp b) (filename_fn b)].
Proof.
  intros Ho. destruct (finalize_open _ _ _ _ Ho) as (? & ? & _ & ?). done.
Qed.

Lemma writes_cons item now calls s :
  writes filename_fn ((item, now) :: calls) s =
  writes filename_fn calls (write filename_fn item now s).
Proof. reflexivity. Qed.

Lemma writes_nil s : writes filename_fn [] s = s.
Proof. reflexivity. Qed.

(** A run of [write] calls that all carry the bucket that is open. *)
Lemma writes_same b others calls : ∀ content s,
  is_open b others content s →
  Forall (λ c, bucket (fst c) = b) calls →
  is_open b others (content ++ join (map (λ c, line (fst c)) calls))
    (writes filename_fn calls s) ∧
  ∃ evs, Forall (data_event (tmp b)) evs ∧
         trace (writes filename_fn calls s) = trace s ++ evs.
Proof.
  induction calls as [|[item now] calls IH]; intros content s Ho Hall.
  - simpl. rewrite app_nil_r. split; [done|]. exists [].
    split; [constructor|by rewrite app_nil_r].
  - apply Forall_cons in Hall as [Hi Hall']. simpl in Hi.
    destruct (write_same _ _ _ item now _ Ho Hi) as (Ho' & evs & Hev & Htr).
    destruct (IH _ _ Ho' Hall') as (Ho'' & evs' & Hev' & Htr').
    simpl. split.
    + unfold join in *. simpl. by rewrite app_assoc.
    + exists (evs ++ evs'). split; [by apply Forall_app|].
      change (writes filename_fn ((item, now) :: calls) s)
        with (writes filename_fn calls (write filename_fn item now s)).
      rewrite Htr', Htr. by rewrite app_assoc.
Qed.

(** ** Reading the clock *)



(** ** Batching *)


End WriterFacts.

(** A name that ends in [.tmp]. *)
Definition has_tmp_suffix (name : string) : Prop := ∃ p, name = p +:+ ".tmp".

Lemma length_append (a b : string) :
  String.length (a +:+ b) = (String.length a + String.length b)%nat.
Proof. induction a as [|c a IH]; simpl; [done|by rewrite IH]. Qed.

(** A name is never its own temp name. *)
Lemma name_ne_tmp (name : string) : name ≠ name +:+ ".tmp".
Proof.
  intros H. apply (f_equal String.length) in H.
  rewrite length_append in H. simpl in H. lia.
Qed.

Lemma append_tmp_inj (a b : string) : a +:+ ".tmp" = b +:+ ".tmp" → a = b.
Proof.
  revert b. induction a as [|c a IH]; intros [|d b] H; simpl in H.
  - done.
  - exfalso. injection H as _ H. apply (f_equal String.length) in H.
    rewrite length_append in H. simpl in H. lia.
  - exfalso. injection H as _ H. apply (f_equal String.length) in H.
    rewrite length_append in H. simpl in H. lia.
  - injection H as -> H. f_equal. by apply IH.
Qed.


(** ** Atomicity, batching and stale temp files *)

Section WriterProperties.

Import Writer.

Variable filename_fn : Z → string.

Local Abbreviation tmp b := (filename_fn b +:+ ".tmp").
Local Abbreviation item b l := {| bucket := b; line := l |}.

(** C1.  Writer atomicity.  Five [write] calls on buckets 1,1,1,2,2, at
    whatever clock readings, followed by [close()], on a fresh output
    directory and with a filename function that gives the two buckets
    different names, none of them a [.tmp] name: the directory then holds
    exactly the two final files, each with the lines of its bucket in
    arrival order, and no [.tmp] file; and in the order of operations
    bucket 1's temp file is written, flushed, closed and renamed before
    bucket 2's temp file is opened. *)
Theorem writer_atomicity (t0 n1 n2 n3 n4 n5 : float) (l1 l2 l3 l4 l5 : bytes) :
  filename_fn 1 ≠ filename_fn 2 →
  ¬ has_tmp_suffix (filename_fn 1) → ¬ has_tmp_suffix (filename_fn 2) →
  let s := close (writes filename_fn
                    [(item 1 l1, n1); (item 1 l2, n2); (item 1 l3, n3);
                     (item 2 l4, n4); (item 2 l5, n5)]
                    (init t0 ∅)) in
  files s = <[filename_fn 2 := l4 ++ l5]>
              (<[filename_fn 1 := l1 ++ l2 ++ l3]> ∅) ∧
  size (files s) = 2%nat ∧
  (∀ name, has_tmp_suffix name → files s !! name = None) ∧
  fp s = None ∧ buffer s = [] ∧
  ∃ ev1 ev2,
    Forall (data_event (tmp 1)) ev1 ∧ Forall (data_event (tmp 2)) ev2 ∧
    trace s =
      [EvMkdir; EvOpenAppend (tmp 1)] ++ ev1 ++
      [EvFlush (tmp 1); EvClose (tmp 1); EvReplace (tmp 1) (filename_fn 1);
       EvMkdir; EvOpenAppend (tmp 2)] ++ ev2 ++
      [EvFlush (tmp 2); EvClose (tmp 2); EvReplace (tmp 2) (filename_fn 2)].
Proof.
  intros Hne H1 H2.
  assert (H12 : filename_fn 1 ≠ tmp 2) by (intros E; apply H1; by eexists).
  assert (Ht12 : tmp 1 ≠ tmp 2) by (by intros E; apply append_tmp_inj in E).
  rewrite writes_cons.
  destruct (write_closed filename_fn (item 1 l1) n1 _ (init_closed t0 ∅))
    as (Ho1 & e1 & He1 & T1).
  set (s1 := write filename_fn (item 1 l1) n1 (init t0 ∅)) in *.
  cbn [bucket line init files trace] in Ho1, He1, T1.
  rewrite lookup_empty in Ho1. cbn [default app] in Ho1.
  destruct (writes_same filename_fn 1 ∅ [(item 1 l2, n2); (item 1 l3, n3)]
              _ _ Ho1) as (Ho3 & e3 & He3 & T3).
  { by repeat constructor. }
  rewrite !writes_cons, writes_nil in Ho3, T3.
  rewrite !writes_cons, writes_nil.
  set (s3 := write filename_fn (item 1 l3) n3 _) in *.
  destruct (write_other filename_fn _ _ _ (item 2 l4) n4 _ Ho3)
    as (Ho4 & e4 & e4' & He4 & He4' & T4); [done|].
  set (s4 := write filename_fn (item 2 l4) n4 s3) in *.
  cbn [bucket line] in Ho4, He4', T4.
  rewrite lookup_insert_ne, lookup_delete_ne, lookup_empty in Ho4 by done.
  cbn [default app] in Ho4.
  destruct (write_same filename_fn _ _ _ (item 2 l5) n5 _ Ho4)
    as (Ho5 & e5 & He5 & T5); [done|].
  set (s5 := write filename_fn (item 2 l5) n5 s4) in *.
  destruct (close_open filename_fn _ _ _ _ Ho5)
    as (Hc & Hfiles & e6 & He6 & T6).
  set (s := close s5) in *. cbn zeta.
  cbn [bucket line] in Hfiles.
  assert (Hfs : files s = <[filename_fn 2 := l4 ++ l5]>
                            (<[filename_fn 1 := l1 ++ l2 ++ l3]> ∅)).
  { rewrite Hfiles. rewrite delete_empty.
    rewrite delete_insert_ne by done. rewrite delete_empty.
    unfold join. cbn [map fst line concat]. by rewrite !app_nil_r. }
  split; [done|]. split.
  { rewrite Hfs. rewrite map_size_insert_None.
    - by rewrite map_size_insert_None, map_size_empty.
    - rewrite lookup_insert_ne by done. apply lookup_empty. }
  split.
  { intros name Hn. rewrite Hfs.
    rewrite !lookup_insert_ne; [apply lookup_empty| |]; by intros <-. }
  destruct Hc as (_ & Hfp & _ & _ & Hbuf).
  split; [done|]. split; [done|].
  exists (e1 ++ e3 ++ e4), (e4' ++ e5 ++ e6).
  split; [by repeat apply Forall_app_2|].
  split; [by repeat apply Forall_app_2|].
  rewrite T6, T5, T4, T3, T1. cbn [app]. by rewrite <- !app_assoc.
Qed.



(** C10.  A temp file left behind is appended to.  When the output
    directory already holds [filename_fn(b).tmp] with content [stale] as a
    fresh writer opens bucket [b], the lines written to [b] go after that
    content, and after [close()] the final file is [stale] followed by the
    lines of this run, whatever the clock readings. *)
Theorem stale_tmp_is_appended (b : Z) (t0 : float) (dir : gmap string bytes)
    (stale : bytes) (calls : list (WriteItem * float)) :
  dir !! tmp b = Some stale →
  calls ≠ [] →
  Forall (λ c, bucket (fst c) = b) calls →
  let s := close (writes filename_fn calls (init t0 dir)) in
  files s !! filename_fn b =
    Some (stale ++ join (map (λ c, line (fst c)) calls)) ∧
  files s !! tmp b = None ∧
  files s = <[filename_fn b := stale ++ join (map (λ c, line (fst c)) calls)]>
              (delete (tmp b) dir).
Proof.
  intros Hst Hnil Hall. destruct calls as [|[it now] calls]; [done|].
  clear Hnil. cbn zeta.
  apply Forall_cons in Hall as [Hi Hall]. cbn [fst] in Hi.
  destruct (write_closed filename_fn it now _ (init_closed t0 dir))
    as (Ho1 & _). rewrite Hi in Ho1. cbn [init files] in Ho1.
  rewrite Hst in Ho1. change (default [] (Some stale)) with stale in Ho1.
  destruct (writes_same filename_fn b _ calls _ _ Ho1 Hall) as (Ho & _).
  rewrite <- writes_cons in Ho.
  destruct (close_open filename_fn _ _ _ _ Ho) as (_ & Hfiles & _).
  assert (Hc : (stale ++ line it) ++ join (map (λ c, line (fst c)) calls) =
               stale ++ join (map (λ c, line (fst c)) ((it, now) :: calls))).
  { cbn [map fst]. unfold join. cbn [concat]. by rewrite app_assoc. }
  rewrite Hc in Hfiles. rewrite Hfiles.
  split; [by rewrite lookup_insert_eq|]. split; [|done].
  rewrite lookup_insert_ne by apply name_ne_tmp. apply lookup_delete_eq.
Qed.

End WriterProperties.

(** *** The writer at a concrete run *)

Definition demo_filename (b : Z) : string :=
  if b =? 1 then "m1" else "m2".

Definition demo_item (b : Z) (l : bytes) : Writer.WriteItem :=
  {| Writer.bucket := b; Writer.line := l |}.

Lemma short_name_not_tmp (name : string) :
  (String.length name < 4)%nat → ¬ has_tmp_suffix name.
Proof.
  intros Hlen [p Hp]. apply (f_equal String.length) in Hp.
  rewrite length_append in Hp. simpl in Hp. lia.
Qed.

Lemma writer_atomicity_witness :
  Writer.files
    (Writer.close
       (Writer.writes demo_filename
          [(demo_item 1 [x61], 10%float); (demo_item 1 [x62], 10.25%float);
           (demo_item 1 [x63], 10.75%float); (demo_item 2 [x64], 11%float);
           (demo_item 2 [x65], 11.5%float)]
          (Writer.init 9.5%float ∅)))
  = <["m2" := [x64; x65]]> (<["m1" := [x61; x62; x63]]> ∅).
Proof.
  refine (proj1 (writer_atomicity demo_filename 9.5 10 10.25 10.75 11 11.5
                   [x61] [x62] [x63] [x64] [x65] _ _ _)).
  - discriminate.
  - apply short_name_not_tmp. simpl. lia.
  - apply short_name_not_tmp. simpl. lia.
Defined.


Lemma stale_tmp_is_appended_witness :
  Writer.files
    (Writer.close
       (Writer.writes demo_filename [(demo_item 1 [x61], 10%float)]
          (Writer.init 10%float {["m1.tmp" := [x7a]]})))
  !! "m1" = Some [x7a; x61].
Proof.
  refine (proj1 (stale_tmp_is_appended demo_filename 1 10
                   {["m1.tmp" := [x7a]]} [x7a]
                   [(demo_item 1 [x61], 10%float)] _ _ _)).
  - reflexivity.
  - discriminate.
  - repeat constructor.
Defined.

(* ===================================================================== *)
(** * Properties of the normalizer                                        *)
(* ===================================================================== *)

Import Normalize.

(** ** The fixed-point codec *)

Section DecFacts.

Import Dec.






























(** *** The constructor *)




(** *** [to_fp] *)




End DecFacts.




(** ** Continuity *)

Lemma continuity_ok_ints (prev_u U u : Z) :
  continuity_ok (VInt prev_u) (VInt U) (VInt u)
    = Ok (bool_decide (U ≤ prev_u + 1 ≤ u)).
Proof.
  unfold continuity_ok, py_add_int, py_le. cbn.
  destruct (Z.leb_spec U (prev_u + 1)); cbn.
  - destruct (Z.leb_spec (prev_u + 1) u).
    + by rewrite bool_decide_eq_true_2.
    + rewrite bool_decide_eq_false_2; [done|lia].
  - rewrite bool_decide_eq_false_2; [done|lia].
Qed.

(** C3.  [continuity_ok(None, U, u)] is true whatever [U] and [u]; for an
    integer [prev_u] and integers [U], [u] the function returns, and it
    returns true exactly when [U <= prev_u + 1 <= u]; so
    [continuity_ok(5, 6, 10)] is true and [continuity_ok(5, 7, 10)] is
    false. *)
Theorem continuity_ok_spec :
  (∀ U u : value, continuity_ok VNone U u = Ok true) ∧
  (∀ prev_u U u : Z,
     continuity_ok (VInt prev_u) (VInt U) (VInt u)
       = Ok (bool_decide (U ≤ prev_u + 1 ≤ u))) ∧
  (∀ prev_u U u : Z,
     continuity_ok (VInt prev_u) (VInt U) (VInt u) = Ok true
       ↔ U ≤ prev_u + 1 ≤ u) ∧
  continuity_ok (VInt 5) (VInt 6) (VInt 10) = Ok true ∧
  continuity_ok (VInt 5) (VInt 7) (VInt 10) = Ok false.
Proof.
  split; [done|]. split; [apply continuity_ok_ints|]. split.
  { intros p U u. rewrite continuity_ok_ints. split.
    - intros [= E]. by apply bool_decide_eq_true in E.
    - intros E. by rewrite bool_decide_eq_true_2. }
  split; apply continuity_ok_ints.
Qed.

(** ** Top of book *)

(** The quantity of the last level seen for price [p], and of the last
    level seen for [p] with a quantity other than zero. *)
Definition last_seen (p : Z) (ls : list (Z * Z)) : option Z :=
  fold_left (λ acc l, if fst l =? p then Some (snd l) else acc) ls None.

Definition last_nonzero (p : Z) (ls : list (Z * Z)) : option Z :=
  fold_left (λ acc l, if (fst l =? p) && negb (snd l =? 0)
                      then Some (snd l) else acc) ls None.

(** What a side holds for [p] once the levels [ls] have been seen. *)
Definition resting (p : Z) (ls : list (Z * Z)) : option Z :=
  match last_seen p ls with
  | Some q => if q =? 0 then None else Some q
  | None => None
  end.

(** A sequence of [apply] calls on a fresh book, each with its bid and its
    ask levels. *)
Definition applied (ds : list (list (Z * Z) * list (Z * Z))) : TopBook :=
  fold_left (λ book d, apply (fst d) (snd d) book) ds empty_book.

Lemma last_seen_snoc p ls l :
  last_seen p (ls ++ [l]) =
  if fst l =? p then Some (snd l) else last_seen p ls.
Proof. unfold last_seen. by rewrite fold_left_app. Qed.

Lemma last_nonzero_snoc p ls l :
  last_nonzero p (ls ++ [l]) =
  if (fst l =? p) && negb (snd l =? 0) then Some (snd l)
  else last_nonzero p ls.
Proof. unfold last_nonzero. by rewrite fold_left_app. Qed.

Lemma last_seen_nonzero p ls q :
  last_seen p ls = Some q → q ≠ 0 → last_nonzero p ls = Some q.
Proof.
  induction ls as [|l ls IH] using rev_ind; [done|].
  rewrite last_seen_snoc, last_nonzero_snoc.
  destruct (fst l =? p); simpl; [|done].
  intros [= ->] Hq. by apply Z.eqb_neq in Hq as ->.
Qed.

Lemma apply_levels_lookup (ls : list (Z * Z)) (p : Z) :
  apply_levels ∅ ls !! p = resting p ls.
Proof.
  unfold resting.
  induction ls as [|[p' q] ls IH] using rev_ind; [done|].
  unfold apply_levels in *. rewrite fold_left_app, last_seen_snoc. simpl.
  destruct (Z.eqb_spec p' p) as [->|Hne].
  - destruct (q =? 0); [apply lookup_delete_eq|apply lookup_insert_eq].
  - destruct (q =? 0);
      [rewrite lookup_delete_ne by done|rewrite lookup_insert_ne by done];
      apply IH.
Qed.

Lemma applied_sides ds :
  bids (applied ds) = apply_levels ∅ (concat (map fst ds)) ∧
  asks (applied ds) = apply_levels ∅ (concat (map snd ds)).
Proof.
  unfold applied.
  induction ds as [|d ds IH] using rev_ind; [done|].
  rewrite fold_left_app, !map_app, !concat_app. simpl.
  destruct IH as [-> ->]. unfold apply_levels.
  by rewrite !fold_left_app.
Qed.

(** C5.  After any sequence of [apply] calls on a fresh book, a side holds
    for a price exactly the quantity of the last level seen for it in that
    side when that quantity is not zero, and nothing otherwise: a price
    that is present carries the most recent quantity seen, which is not
    zero (so it is also the most recent non-zero one), and a price last
    seen with quantity 0 is absent. *)
Theorem topbook_invariant (ds : list (list (Z * Z) * list (Z * Z))) (p : Z) :
  let seen_b := concat (map fst ds) in
  let seen_a := concat (map snd ds) in
  bids (applied ds) !! p = resting p seen_b ∧
  asks (applied ds) !! p = resting p seen_a ∧
  (∀ q, bids (applied ds) !! p = Some q →
        last_seen p seen_b = Some q ∧ q ≠ 0 ∧ last_nonzero p seen_b = Some q) ∧
  (∀ q, asks (applied ds) !! p = Some q →
        last_seen p seen_a = Some q ∧ q ≠ 0 ∧ last_nonzero p seen_a = Some q) ∧
  (last_seen p seen_b = Some 0 → bids (applied ds) !! p = None) ∧
  (last_seen p seen_a = Some 0 → asks (applied ds) !! p = None).
Proof.
  cbn zeta. destruct (applied_sides ds) as [-> ->].
  rewrite !apply_levels_lookup.
  assert (H : ∀ ls q, resting p ls = Some q →
            last_seen p ls = Some q ∧ q ≠ 0 ∧ last_nonzero p ls = Some q).
  { intros ls q. unfold resting.
    destruct (last_seen p ls) as [q'|] eqn:E; [|done].
    destruct (Z.eqb_spec q' 0); [done|]. intros [= <-].
    split; [done|]. split; [done|]. by apply last_seen_nonzero. }
  split; [done|]. split; [done|].
  split; [intros q Hq; by apply H|]. split; [intros q Hq; by apply H|].
  unfold resting. split; by intros ->.
Qed.

Lemma keys_nil (m : gmap Z Z) : keys m = [] ↔ m = ∅.
Proof.
  unfold keys. rewrite <- map_to_list_empty_iff.
  split; [apply fmap_nil_inv|by intros ->].
Qed.

Lemma elem_of_keys (m : gmap Z Z) (k : Z) : k ∈ keys m ↔ is_Some (m !! k).
Proof.
  unfold keys. rewrite list_elem_of_fmap. split.
  - intros ([k' q] & -> & H). apply elem_of_map_to_list in H. by exists q.
  - intros [q H]. exists (k, q). split; [done|]. by apply elem_of_map_to_list.
Qed.

Lemma is_empty_true (m : gmap Z Z) : is_empty m = true ↔ m = ∅.
Proof.
  rewrite <- keys_nil. unfold is_empty. by destruct (keys m).
Qed.

Lemma fold_max_spec (ks : list Z) : ∀ k,
  fold_left Z.max ks k ∈ k :: ks ∧ ∀ x, x ∈ k :: ks → x ≤ fold_left Z.max ks k.
Proof.
  induction ks as [|k' ks IH]; intros k; simpl.
  - split; [left|]. intros x Hx. apply list_elem_of_singleton in Hx. lia.
  - destruct (IH (Z.max k k')) as [Hin Hle]. split.
    + apply elem_of_cons in Hin as [Hin|Hin]; [|by do 2 right].
      rewrite Hin. destruct (Z.max_spec k k') as [[_ ->]|[_ ->]];
        [right; left|left].
    + intros x Hx. apply elem_of_cons in Hx as [->|Hx].
      * etrans; [apply (Z.le_max_l _ k')|]. apply Hle. left.
      * apply elem_of_cons in Hx as [->|Hx].
        -- etrans; [apply (Z.le_max_r k)|]. apply Hle. left.
        -- apply Hle. by right.
Qed.

Lemma fold_min_spec (ks : list Z) : ∀ k,
  fold_left Z.min ks k ∈ k :: ks ∧ ∀ x, x ∈ k :: ks → fold_left Z.min ks k ≤ x.
Proof.
  induction ks as [|k' ks IH]; intros k; simpl.
  - split; [left|]. intros x Hx. apply list_elem_of_singleton in Hx. lia.
  - destruct (IH (Z.min k k')) as [Hin Hle]. split.
    + apply elem_of_cons in Hin as [Hin|Hin]; [|by do 2 right].
      rewrite Hin. destruct (Z.min_spec k k') as [[_ ->]|[_ ->]];
        [left|right; left].
    + intros x Hx. apply elem_of_cons in Hx as [->|Hx].
      * etrans; [|apply (Z.le_min_l _ k')]. apply Hle. left.
      * apply elem_of_cons in Hx as [->|Hx].
        -- etrans; [|apply (Z.le_min_r k)]. apply Hle. left.
        -- apply Hle. by right.
Qed.

Lemma max_key_spec (m : gmap Z Z) :
  m ≠ ∅ →
  ∃ k, max_key m = Some k ∧ is_Some (m !! k) ∧
       ∀ p, is_Some (m !! p) → p ≤ k.
Proof.
  intros Hne. unfold max_key.
  destruct (keys m) as [|k ks] eqn:E; [by apply keys_nil in E|].
  destruct (fold_max_spec ks k) as [Hin Hle]. rewrite <- E in Hin, Hle.
  eexists. split; [done|]. split; [by apply elem_of_keys|].
  intros p Hp. by apply Hle, elem_of_keys.
Qed.

Lemma min_key_spec (m : gmap Z Z) :
  m ≠ ∅ →
  ∃ k, min_key m = Some k ∧ is_Some (m !! k) ∧
       ∀ p, is_Some (m !! p) → k ≤ p.
Proof.
  intros Hne. unfold min_key.
  destruct (keys m) as [|k ks] eqn:E; [by apply keys_nil in E|].
  destruct (fold_min_spec ks k) as [Hin Hle]. rewrite <- E in Hin, Hle.
  eexists. split; [done|]. split; [by apply elem_of_keys|].
  intros p Hp. by apply Hle, elem_of_keys.
Qed.

(** [best] on a book with both sides populated. *)
Lemma best_some (book : TopBook) :
  bids book ≠ ∅ → asks book ≠ ∅ →
  ∃ bb bq ba aq,
    best book = Some (bb, bq, ba, aq) ∧
    bids book !! bb = Some bq ∧ (∀ p, is_Some (bids book !! p) → p ≤ bb) ∧
    asks book !! ba = Some aq ∧ (∀ p, is_Some (asks book !! p) → ba ≤ p).
Proof.
  intros Hb Ha. unfold best.
  destruct (is_empty (bids book)) eqn:Eb; [by apply is_empty_true in Eb|].
  destruct (is_empty (asks book)) eqn:Ea; [by apply is_empty_true in Ea|].
  destruct (max_key_spec _ Hb) as (bb & -> & [bq Hbq] & Hmax).
  destruct (min_key_spec _ Ha) as (ba & -> & [aq Haq] & Hmin).
  exists bb, bq, ba, aq. simpl. rewrite Hbq, Haq. done.
Qed.

(** C6.  [best()] is [None] exactly when a side is empty; otherwise it is
    the greatest bid price with its quantity and the least ask price with
    its quantity.  [mid_fp] is the floor of [(bid + ask) / 2].  With a
    positive denominator [bid_sz + ask_sz], [micro_fp] is the floor of
    [(ask * bid_sz + bid * ask_sz) / (bid_sz + ask_sz)]; with a denominator
    that is zero or negative it is [mid_fp]. *)
Theorem best_mid_micro_spec (book : TopBook) :
  (best book = None ↔ bids book = ∅ ∨ asks book = ∅) ∧
  (∀ bb bq ba aq, best book = Some (bb, bq, ba, aq) →
     bids book !! bb = Some bq ∧ (∀ p, is_Some (bids book !! p) → p ≤ bb) ∧
     asks book !! ba = Some aq ∧ (∀ p, is_Some (asks book !! p) → ba ≤ p)) ∧
  (∀ bid ask,
     mid_fp bid ask = (bid + ask) `div` 2 ∧
     2 * mid_fp bid ask ≤ bid + ask < 2 * mid_fp bid ask + 2) ∧
  (∀ bid bid_sz ask ask_sz, 0 < bid_sz + ask_sz →
     micro_fp bid bid_sz ask ask_sz
       = (ask * bid_sz + bid * ask_sz) `div` (bid_sz + ask_sz) ∧
     micro_fp bid bid_sz ask ask_sz * (bid_sz + ask_sz)
       ≤ ask * bid_sz + bid * ask_sz
       < (micro_fp bid bid_sz ask ask_sz + 1) * (bid_sz + ask_sz)) ∧
  (∀ bid bid_sz ask ask_sz, bid_sz + ask_sz ≤ 0 →
     micro_fp bid bid_sz ask ask_sz = mid_fp bid ask).
Proof.
  split; [|split; [|split; [|split]]].
  - split.
    + intros Hn.
      destruct (decide (bids book = ∅)) as [|Hb]; [by left|].
      destruct (decide (asks book = ∅)) as [|Ha]; [by right|].
      destruct (best_some book Hb Ha) as (? & ? & ? & ? & E & _).
      by rewrite E in Hn.
    + unfold best. intros [E|E]; apply is_empty_true in E; rewrite E;
        [done|by rewrite orb_true_r].
  - intros bb bq ba aq E.
    destruct (decide (bids book = ∅)) as [Hb|Hb].
    { unfold best in E. apply is_empty_true in Hb. by rewrite Hb in E. }
    destruct (decide (asks book = ∅)) as [Ha|Ha].
    { unfold best in E. apply is_empty_true in Ha.
      by rewrite Ha, orb_true_r in E. }
    destruct (best_some book Hb Ha) as (? & ? & ? & ? & E' & H).
    rewrite E in E'. by injection E' as <- <- <- <-.
  - intros bid ask. unfold mid_fp. split; [done|].
    pose proof (Z.div_mod (bid + ask) 2).
    pose proof (Z.mod_pos_bound (bid + ask) 2). lia.
  - intros bid bid_sz ask ask_sz Hden. unfold micro_fp.
    destruct (Z.leb_spec (bid_sz + ask_sz) 0); [lia|]. split; [done|].
    pose proof (Z.div_mod (ask * bid_sz + bid * ask_sz) (bid_sz + ask_sz)).
    pose proof (Z.mod_pos_bound (ask * bid_sz + bid * ask_sz)
                  (bid_sz + ask_sz)). nia.
  - intros bid bid_sz ask ask_sz Hden. unfold micro_fp.
    destruct (Z.leb_spec (bid_sz + ask_sz) 0); [done|lia].
Qed.

(** ** The pass over a raw file *)

Section PassFacts.

Variable loads : bytes → option value.
Variable dumps_delta : delta → option bytes.
Variable dumps_px : price_record → option bytes.
Variable to_fp_other : value → Z → exc Z.
Variable dump_audit : string → string → string → Z → Audit.t → bytes.

Local Abbreviation process_kept := (process_kept dumps_delta dumps_px).
Local Abbreviation process_line :=
  (process_line loads dumps_delta dumps_px to_fp_other).
Local Abbreviation process_lines :=
  (process_lines loads dumps_delta dumps_px to_fp_other).
Local Abbreviation process_raw_file :=
  (process_raw_file loads dumps_delta dumps_px to_fp_other dump_audit).

(** C4.  A line that is normalized to [d] and fails the continuity check:
    the audit's [continuity_ok] becomes false, [gaps] grows by one,
    [first_gap] takes the detail (the baseline, [U], [u] and the 1-based
    number of the line) when no gap was recorded before and is left as it
    is otherwise, the baseline is reset to [None], and the encoded record
    and a newline are appended to the normalized output. *)
Theorem gap_recorded_output_kept (line : bytes) (st : pass) (raw : value)
    (d : delta) (out : bytes) :
  loads line = Some raw →
  is_depth_delta raw = Ok true →
  normalize_delta to_fp_other raw = Ok d →
  continuity_ok (prev_u st) (d_U d) (d_u d) = Ok false →
  dumps_delta d = Some out →
  let st' := fst (process_line line st) in
  Audit.continuity_ok (audit st') = false ∧
  Audit.gaps (audit st') = Audit.gaps (audit st) + 1 ∧
  Audit.first_gap (audit st') =
    match Audit.first_gap (audit st) with
    | None => Some {| g_prev_u := prev_u st; g_U := d_U d; g_u := d_u d;
                      g_line := Audit.raw_lines (audit st) + 1 |}
    | Some g => Some g
    end ∧
  Audit.kept_lines (audit st') = Audit.kept_lines (audit st) + 1 ∧
  prev_u st' = VNone ∧
  fnorm st' = fnorm st ++ out ++ newline.
Proof.
  intros Hl Hs Hn Hc Hd. cbn zeta.
  unfold Normalize.process_line. rewrite Hl, Hs, Hn.
  unfold Normalize.process_kept. cbn [set_audit prev_u audit].
  rewrite Hc, Hd. cbn [audit book prev_u fnorm fpx].
  destruct (best _) as [[[[bid bid_sz] ask] ask_sz]|]; [|done].
  by destruct (dumps_px _).
Qed.

(** The sum of the four outcome counters. *)
Definition tally (a : Audit.t) : Z :=
  Audit.bad_json a + Audit.skipped_schema a + Audit.normalize_errors a
  + Audit.kept_lines a.

Lemma process_kept_counts (d : delta) (st : pass) :
  let st' := fst (process_kept d st) in
  Audit.raw_lines (audit st') = Audit.raw_lines (audit st) ∧
  tally (audit st') = tally (audit st) + 1.
Proof.
  cbn zeta. unfold Normalize.process_kept, tally.
  cbn [set_audit prev_u audit].
  destruct (continuity_ok _ _ _) as [[]|]; cbn; [| |lia];
    (destruct (dumps_delta d); cbn; [|lia]);
    (destruct (best _) as [[[[? ?] ?] ?]|]; cbn; [|lia]);
    destruct (dumps_px _); cbn; lia.
Qed.

(** Every line is counted once in [raw_lines]; a line that does not end
    the pass is counted once in one of the four outcome counters. *)
Lemma process_line_counts (line : bytes) (st : pass) :
  let r := process_line line st in
  Audit.raw_lines (audit (fst r)) = Audit.raw_lines (audit st) + 1 ∧
  (snd r = None → tally (audit (fst r)) = tally (audit st) + 1).
Proof.
  cbn zeta. unfold Normalize.process_line.
  destruct (loads line) as [raw|]; [|by (unfold tally; cbn; split; [|lia])].
  destruct (is_depth_delta raw) as [[]|]; [| |done].
  - destruct (normalize_delta _ raw) as [d|].
    + pose proof (process_kept_counts d
        (set_audit (count_raw_line (audit st)) st)) as [H1 H2].
      cbn zeta in H1, H2. rewrite H1, H2. unfold tally. cbn. done.
    + unfold tally. cbn. split; [done|lia].
  - unfold tally. cbn. split; [done|lia].
Qed.

Lemma process_lines_counts (lines : list bytes) : ∀ st st',
  process_lines lines st = (st', None) →
  Audit.raw_lines (audit st')
    = Audit.raw_lines (audit st) + Z.of_nat (length lines) ∧
  tally (audit st') = tally (audit st) + Z.of_nat (length lines).
Proof.
  induction lines as [|line lines IH]; intros st st' H.
  - injection H as <-. cbn. lia.
  - cbn [Normalize.process_lines] in H.
    pose proof (process_line_counts line st) as [H1 H2]. cbn zeta in H1, H2.
    destruct (process_line line st) as [st1 [e|]]; [done|].
    apply IH in H as [H3 H4]. cbn [fst snd] in H1, H2.
    rewrite H3, H4, H1, H2 by done. cbn [length]. lia.
Qed.

(** An update id that is an [int]. *)
Definition is_int (v : value) : Prop := ∃ n, v = VInt n.

(** A line whose handling raises nothing that the loop does not catch:
    it is no JSON; or it decodes to a value that the schema check can
    examine and, when it is normalized, the update ids are integers and the
    record can be encoded. *)
Definition handled (line : bytes) : Prop :=
  match loads line with
  | None => True
  | Some raw =>
      match is_depth_delta raw with
      | Raise _ => False
      | Ok false => True
      | Ok true =>
          match normalize_delta to_fp_other raw with
          | Raise _ => True
          | Ok d => is_int (d_U d) ∧ is_int (d_u d) ∧ is_Some (dumps_delta d)
          end
      end
  end.

Lemma process_kept_completes (d : delta) (st : pass) :
  (∀ px, is_Some (dumps_px px)) →
  prev_u st = VNone ∨ is_int (prev_u st) →
  is_int (d_U d) → is_int (d_u d) → is_Some (dumps_delta d) →
  snd (process_kept d st) = None ∧
  (prev_u (fst (process_kept d st)) = VNone ∨
   is_int (prev_u (fst (process_kept d st)))).
Proof.
  intros Hpx Hprev [U HU] [u Hu] [out Hout].
  unfold Normalize.process_kept. cbn [set_audit prev_u audit].
  rewrite HU, Hu, Hout.
  assert (Hc : ∃ b, continuity_ok (prev_u st) (VInt U) (VInt u) = Ok b).
  { destruct Hprev as [->|[n ->]]; [by eexists|].
    rewrite continuity_ok_ints. by eexists. }
  destruct Hc as [b ->].
  destruct b; cbn [audit book prev_u fnorm fpx];
    (destruct (best _) as [[[[? ?] ?] ?]|]; cbn;
     [|split; [done|]; first [by left|right; by eexists]]);
    match goal with |- context [dumps_px ?px] =>
      destruct (Hpx px) as [o ->] end; cbn;
    (split; [done|]; first [by left|right; by eexists]).
Qed.

Lemma process_lines_complete (lines : list bytes) : ∀ st,
  (∀ px, is_Some (dumps_px px)) →
  prev_u st = VNone ∨ is_int (prev_u st) →
  Forall handled lines →
  ∃ st', process_lines lines st = (st', None).
Proof.
  induction lines as [|line lines IH]; intros st Hpx Hprev Hall.
  - by eexists.
  - apply Forall_cons in Hall as [Hh Hall]. cbn [Normalize.process_lines].
    assert (H : snd (process_line line st) = None ∧
                (prev_u (fst (process_line line st)) = VNone ∨
                 is_int (prev_u (fst (process_line line st))))).
    { unfold handled in Hh. unfold Normalize.process_line.
      destruct (loads line) as [raw|]; [|done].
      destruct (is_depth_delta raw) as [[]|]; [|done|done].
      destruct (normalize_delta _ raw) as [d|]; [|done].
      destruct Hh as (HU & Hu & Hd). by apply process_kept_completes. }
    destruct (process_line line st) as [st1 r]. cbn [fst snd] in H.
    destruct H as [-> H]. by apply IH.
Qed.

(** C7.  When the pass over the lines of a raw file runs to its end, the
    audit it has built counts every line once in [raw_lines] and
    [raw_lines = bad_json + skipped_schema + normalize_errors + kept_lines];
    this is the audit that the completed pass persists.  The pass runs to
    its end on every sequence of lines of the four kinds (no JSON, schema
    mismatch, normalization failure, kept with integer update ids), given
    an encoder that accepts the records. *)
Theorem audit_counters_balance (lines : list bytes) :
  (∀ st, process_lines lines start = (st, None) →
     Audit.raw_lines (audit st) = Z.of_nat (length lines) ∧
     Audit.raw_lines (audit st)
       = Audit.bad_json (audit st) + Audit.skipped_schema (audit st)
         + Audit.normalize_errors (audit st) + Audit.kept_lines (audit st)) ∧
  ((∀ px, is_Some (dumps_px px)) → Forall handled lines →
     ∃ st, process_lines lines start = (st, None)) ∧
  (∀ stem now fs fs' data,
     raw_dir fs !! (stem +:+ ".jsonl") = Some data →
     process_raw_file stem now fs = (Completed, fs') →
     ∃ a, audit_dir fs' !! (stem +:+ ".audit.json")
            = Some (dump_audit (stem +:+ ".jsonl") (stem +:+ ".fp.jsonl")
                      (stem +:+ ".prices.jsonl") now a) ∧
          Audit.raw_lines a = Z.of_nat (length (iter_lines data)) ∧
          Audit.raw_lines a
            = Audit.bad_json a + Audit.skipped_schema a
              + Audit.normalize_errors a + Audit.kept_lines a).
Proof.
  assert (Hbal : ∀ ls st, process_lines ls start = (st, None) →
     Audit.raw_lines (audit st) = Z.of_nat (length ls) ∧
     Audit.raw_lines (audit st)
       = Audit.bad_json (audit st) + Audit.skipped_schema (audit st)
         + Audit.normalize_errors (audit st) + Audit.kept_lines (audit st)).
  { intros ls st H. apply process_lines_counts in H as [H1 H2].
    unfold tally in H2. cbn in H1, H2. lia. }
  split; [apply Hbal|]. split.
  - intros Hpx Hall. apply process_lines_complete; [done|by left|done].
  - intros stem now fs fs' data Hraw.
    unfold Normalize.process_raw_file. rewrite Hraw.
    destruct (process_lines (iter_lines data) start) as [st [e|]] eqn:E.
    + by repeat case_match.
    + intros H. exists (audit st). split; [|by apply Hbal].
      repeat case_match; simplify_eq; cbn; by rewrite lookup_insert_eq.
Qed.

(** All three outputs of the raw file [stem.jsonl] exist. *)
Definition complete (stem : string) (fs : tree) : Prop :=
  is_Some (norm_dir fs !! (stem +:+ ".fp.jsonl")) ∧
  is_Some (prices_dir fs !! (stem +:+ ".prices.jsonl")) ∧
  is_Some (audit_dir fs !! (stem +:+ ".audit.json")).

Lemma process_complete stem now fs :
  complete stem fs → process_raw_file stem now fs = (Skipped, fs).
Proof.
  intros ([? Hn] & [? Hp] & [? Ha]). unfold Normalize.process_raw_file.
  by rewrite Hn, Hp, Ha.
Qed.

(** What the pass does to a file whose outputs are not all there. *)
Lemma process_incomplete stem now fs :
  ¬ complete stem fs →
  process_raw_file stem now fs =
    match raw_dir fs !! (stem +:+ ".jsonl") with
    | None => (Aborted FileNotFoundError, fs)
    | Some data =>
        let st := fst (process_lines (iter_lines data) start) in
        let fs1 :=
          {| raw_dir := raw_dir fs;
             norm_dir := <[stem +:+ ".fp.jsonl" := fnorm st]> (norm_dir fs);
             prices_dir :=
               <[stem +:+ ".prices.jsonl" := fpx st]> (prices_dir fs);
             audit_dir := audit_dir fs |} in
        match snd (process_lines (iter_lines data) start) with
        | Some e => (Aborted e, fs1)
        | None =>
            (Completed,
             {| raw_dir := raw_dir fs; norm_dir := norm_dir fs1;
                prices_dir := prices_dir fs1;
                audit_dir :=
                  <[stem +:+ ".audit.json" :=
                      dump_audit (stem +:+ ".jsonl") (stem +:+ ".fp.jsonl")
                        (stem +:+ ".prices.jsonl") now (audit st)]>
                    (audit_dir fs) |})
        end
    end.
Proof.
  intros Hc. unfold Normalize.process_raw_file.
  destruct (norm_dir fs !! _) eqn:En; [destruct (prices_dir fs !! _) eqn:Ep;
    [destruct (audit_dir fs !! _) eqn:Ea|]|];
    [exfalso; apply Hc; unfold complete; rewrite En, Ep, Ea; by eauto| | |];
    (destruct (raw_dir fs !! _); [|done]);
    by destruct (process_lines _ start) as [st [e|]].
Qed.

(** C9.  The pass over one raw file is skipped exactly when the normalized,
    the price and the audit file all exist, and then it leaves everything
    as it is.  Otherwise the file is processed from its first line: the
    normalized and the price file are replaced by what this pass writes,
    whatever they held, and a pass that runs to its end writes the audit
    file.  A second pass right after the first changes nothing; after a
    first pass that ran to its end it is skipped. *)
Theorem resumable_skip (stem : string) (now : Z) (fs : tree) :
  (fst (process_raw_file stem now fs) = Skipped ↔ complete stem fs) ∧
  (complete stem fs → process_raw_file stem now fs = (Skipped, fs)) ∧
  (¬ complete stem fs → ∀ data,
     raw_dir fs !! (stem +:+ ".jsonl") = Some data →
     let st := fst (process_lines (iter_lines data) start) in
     let fs' := snd (process_raw_file stem now fs) in
     norm_dir fs' !! (stem +:+ ".fp.jsonl") = Some (fnorm st) ∧
     prices_dir fs' !! (stem +:+ ".prices.jsonl") = Some (fpx st) ∧
     (snd (process_lines (iter_lines data) start) = None →
        fst (process_raw_file stem now fs) = Completed ∧
        audit_dir fs' !! (stem +:+ ".audit.json")
          = Some (dump_audit (stem +:+ ".jsonl") (stem +:+ ".fp.jsonl")
                    (stem +:+ ".prices.jsonl") now (audit st)))) ∧
  (∀ now',
     snd (process_raw_file stem now' (snd (process_raw_file stem now fs)))
       = snd (process_raw_file stem now fs)) ∧
  (fst (process_raw_file stem now fs) = Completed → ∀ now',
     process_raw_file stem now' (snd (process_raw_file stem now fs))
       = (Skipped, snd (process_raw_file stem now fs))).
Proof.
  destruct (decide (complete stem fs)) as [Hc|Hc].
  { rewrite (process_complete _ _ _ Hc). cbn [fst snd].
    split; [done|]. split; [done|]. split; [done|].
    split; [|done]. intros now'. by rewrite (process_complete _ _ _ Hc). }
  rewrite (process_incomplete _ _ _ Hc).
  split.
  { split; [|done]. destruct (raw_dir fs !! _); [|done]. cbn zeta.
    by destruct (snd (process_lines _ start)). }
  split; [done|]. split.
  { intros _ data ->. cbn zeta.
    destruct (process_lines (iter_lines data) start) as [st [e|]];
      cbn; rewrite !lookup_insert_eq; done. }
  destruct (raw_dir fs !! (stem +:+ ".jsonl")) as [data|] eqn:Eraw.
  2:{ cbn [fst snd]. split; [|done]. intros now'.
      by rewrite (process_incomplete _ _ _ Hc), Eraw. }
  cbn zeta.
  destruct (process_lines (iter_lines data) start) as [st [e|]] eqn:E;
    cbn [fst snd].
  - split; [|done]. intros now'.
    match goal with |- context [process_raw_file stem now' ?t] =>
      set (fs1 := t) end.
    destruct (decide (complete stem fs1)) as [Hc1|Hc1].
    + by rewrite (process_complete _ _ _ Hc1).
    + rewrite (process_incomplete _ _ _ Hc1). subst fs1.
      cbn [raw_dir norm_dir prices_dir audit_dir]. rewrite Eraw, E.
      cbn. by rewrite !insert_insert_eq.
  - assert (Hc1 : ∀ a, complete stem
      {| raw_dir := raw_dir fs;
         norm_dir := <[stem +:+ ".fp.jsonl" := fnorm st]> (norm_dir fs);
         prices_dir :=
           <[stem +:+ ".prices.jsonl" := fpx st]> (prices_dir fs);
         audit_dir := <[stem +:+ ".audit.json" := a]> (audit_dir fs) |}).
    { intros a. unfold complete. cbn. rewrite !lookup_insert_eq. by eauto. }
    split; intros; by rewrite (process_complete _ _ _ (Hc1 _)).
Qed.

End PassFacts.

(** *** The pass at a concrete file *)

(** A two-line raw file, after the end-to-end scenario of the
    specification: update ids [(1, 5)] then [(7, 10)], each with the bid
    level [["100.0", "2.0"]] and the ask level [["101.0", "3.0"]]. *)
Definition demo_delta (U u : Z) : value :=
  VDict [("exchange", VStr "binance"); ("symbol", VStr "BTCUSDT");
         ("conn_id", VInt 3); ("recv_ts_ns", VInt 1700000000000000000);
         ("event_ts_ms", VInt 1700000000000);
         ("U", VInt U); ("u", VInt u);
         ("b", VList [VList [VStr "100.0"; VStr "2.0"]]);
         ("a", VList [VList [VStr "101.0"; VStr "3.0"]])].

(** A decoder for the lines of the example: [A] and [B] are the two
    deltas, [C] is an object without the required fields, every other
    line is no JSON. *)
Definition demo_loads (line : bytes) : option value :=
  match line with
  | [x41; x0a] => Some (demo_delta 1 5)
  | [x42; x0a] => Some (demo_delta 7 10)
  | [x43; x0a] => Some (VDict [])
  | _ => None
  end.

Definition demo_dumps_delta (d : delta) : option bytes := Some [x64].
Definition demo_dumps_px (p : price_record) : option bytes := Some [x70].
Definition demo_to_fp_other (x : value) (scale : Z) : exc Z := Raise TypeError.
Definition demo_dump_audit (raw_file norm_file prices_file : string)
    (created_at : Z) (a : Audit.t) : bytes := [x7b; x7d].

Definition demo_pass : list bytes → pass → pass * option exn :=
  process_lines demo_loads demo_dumps_delta demo_dumps_px demo_to_fp_other.

(** The end-to-end scenario: both lines are kept and written, both give a
    price record with [mid = (10000000000 + 10100000000) // 2], and the
    audit has one gap, at line 2. *)
Example end_to_end_scenario :
  let st := fst (demo_pass [[x41; x0a]; [x42; x0a]] start) in
  snd (demo_pass [[x41; x0a]; [x42; x0a]] start) = None ∧
  fnorm st = [x64; x0a; x64; x0a] ∧
  fpx st = [x70; x0a; x70; x0a] ∧
  audit st =
    {| Audit.raw_lines := 2; Audit.kept_lines := 2; Audit.bad_json := 0;
       Audit.skipped_schema := 0; Audit.normalize_errors := 0;
       Audit.continuity_ok := false; Audit.gaps := 1;
       Audit.first_gap := Some {| g_prev_u := VInt 5; g_U := VInt 7;
                                  g_u := VInt 10; g_line := 2 |} |} ∧
  best (book st) = Some (10000000000, 200000000, 10100000000, 300000000) ∧
  mid_fp 10000000000 10100000000 = 10050000000.
Proof. vm_compute. done. Qed.

Lemma gap_recorded_output_kept_witness :
  let st1 := fst (demo_pass [[x41; x0a]] start) in
  let st2 := fst (process_line demo_loads demo_dumps_delta demo_dumps_px
                    demo_to_fp_other [x42; x0a] st1) in
  Audit.continuity_ok (audit st2) = false ∧
  Audit.gaps (audit st2) = 1 ∧
  Audit.first_gap (audit st2)
    = Some {| g_prev_u := VInt 5; g_U := VInt 7; g_u := VInt 10;
              g_line := 2 |} ∧
  prev_u st2 = VNone ∧
  fnorm st2 = [x64; x0a; x64; x0a].
Proof.
  cbn zeta.
  pose proof (gap_recorded_output_kept demo_loads demo_dumps_delta
                demo_dumps_px demo_to_fp_other [x42; x0a]
                (fst (demo_pass [[x41; x0a]] start))
                (demo_delta 7 10)
                {| d_exchange := VStr "binance"; d_symbol := VStr "BTCUSDT";
                   d_conn_id := VInt 3;
                   d_recv_ts_ns := VInt 1700000000000000000;
                   d_event_ts_ns := VInt 1700000000000000000;
                   d_U := VInt 7; d_u := VInt 10;
                   d_b := [(10000000000, 200000000)];
                   d_a := [(10100000000, 300000000)] |}
                [x64] eq_refl eq_refl eq_refl eq_refl eq_refl)
    as (H1 & H2 & H3 & _ & H5 & H6).
  exact (conj H1 (conj H2 (conj H3 (conj H5 H6)))).
Defined.

(** *** The codec, the book and the pass at concrete inputs *)

(** What [Decimal] reads: blanks around the numeral and underscores in it
    are dropped, a point needs a digit on one side, an exponent needs a
    digit, the special values are no numerals. *)
Example to_fp_examples :
  to_fp " -12.5e3 " (10 ^ 8) = Ok (-1250000000000) ∧
  to_fp "1_000.5" 100 = Ok 100050 ∧
  to_fp ".5" 1 = Ok 0 ∧ to_fp "1.5" 1 = Ok 2 ∧ to_fp "2.5" 1 = Ok 2 ∧
  to_fp "-2.5" 1 = Ok (-2) ∧
  to_fp "abc" 100 = Raise InvalidOperation ∧
  to_fp "" 100 = Raise InvalidOperation ∧
  to_fp "." 100 = Raise InvalidOperation ∧
  to_fp "1e" 1 = Raise InvalidOperation ∧
  to_fp "Infinity" 1 = Raise OverflowError ∧
  to_fp "-nan12" 1 = Raise ValueError ∧
  to_fp "snan" 1 = Raise InvalidOperation.
Proof. vm_compute. done. Qed.

(** A product above [Emax] raises [Overflow], for a numeral of one
    digit. *)
Example to_fp_overflow : to_fp "1e999999" (10 ^ 8) = Raise Overflow.
Proof. by vm_compute. Qed.


Lemma topbook_invariant_witness :
  bids (applied [([(100, 2); (99, 1)], [(101, 3)]); ([(100, 0)], [])]) !! 100
    = None ∧
  bids (applied [([(100, 2); (99, 1)], [(101, 3)]); ([(100, 0)], [])]) !! 99
    = Some 1.
Proof.
  split.
  - exact (proj1 (topbook_invariant
                    [([(100, 2); (99, 1)], [(101, 3)]); ([(100, 0)], [])]
                    100)).
  - exact (proj1 (topbook_invariant
                    [([(100, 2); (99, 1)], [(101, 3)]); ([(100, 0)], [])]
                    99)).
Defined.

Lemma best_mid_micro_spec_witness :
  let book := apply [(100, 2); (99, 1)] [(101, 3); (102, 1)] empty_book in
  bids book !! 100 = Some 2 ∧ (∀ p, is_Some (bids book !! p) → p ≤ 100) ∧
  asks book !! 101 = Some 3 ∧ (∀ p, is_Some (asks book !! p) → 101 ≤ p).
Proof.
  exact (proj1 (proj2 (best_mid_micro_spec
           (apply [(100, 2); (99, 1)] [(101, 3); (102, 1)] empty_book)))
           100 2 101 3 eq_refl).
Defined.

(** A raw file of four lines: the two deltas, an object without the
    required fields, and a line that is no JSON. *)
Definition demo_lines : list bytes :=
  [[x41; x0a]; [x42; x0a]; [x43; x0a]; [x7a; x0a]].

Lemma audit_counters_balance_witness :
  let a := audit (fst (demo_pass demo_lines start)) in
  Audit.raw_lines a = 4 ∧
  Audit.raw_lines a
    = Audit.bad_json a + Audit.skipped_schema a + Audit.normalize_errors a
      + Audit.kept_lines a.
Proof.
  assert (H : demo_pass demo_lines start
              = (fst (demo_pass demo_lines start), None))
    by (vm_compute; reflexivity).
  exact (proj1 (audit_counters_balance demo_loads demo_dumps_delta
                  demo_dumps_px demo_to_fp_other demo_dump_audit demo_lines)
           (fst (demo_pass demo_lines start)) H).
Defined.

Definition demo_tree : tree :=
  {| raw_dir := {["deltas_utcmin_1.jsonl" := concat demo_lines]};
     norm_dir := {["deltas_utcmin_1.fp.jsonl" := [x3f]]};
     prices_dir := ∅; audit_dir := ∅ |}.

Definition demo_process : string → Z → tree → outcome * tree :=
  process_raw_file demo_loads demo_dumps_delta demo_dumps_px
    demo_to_fp_other demo_dump_audit.

(** A normalized file without its audit is no complete output: the file is
    processed and what was there is replaced. *)
Example partial_output_reprocessed :
  let r := demo_process "deltas_utcmin_1" 1700000000 demo_tree in
  fst r = Completed ∧
  norm_dir (snd r) !! "deltas_utcmin_1.fp.jsonl" = Some [x64; x0a; x64; x0a] ∧
  prices_dir (snd r) !! "deltas_utcmin_1.prices.jsonl"
    = Some [x70; x0a; x70; x0a] ∧
  audit_dir (snd r) !! "deltas_utcmin_1.audit.json" = Some [x7b; x7d].
Proof. vm_compute. done. Qed.

Lemma resumable_skip_witness :
  let fs1 := snd (demo_process "deltas_utcmin_1" 1700000000 demo_tree) in
  demo_process "deltas_utcmin_1" 1700000060 fs1 = (Skipped, fs1).
Proof.
  exact (proj2 (proj2 (proj2 (proj2
           (resumable_skip demo_loads demo_dumps_delta demo_dumps_px
              demo_to_fp_other demo_dump_audit
              "deltas_utcmin_1" 1700000000 demo_tree))))
           eq_refl 1700000060).
Defined.

(* ===================================================================== *)
(** * More on the rotating writer                                         *)
(* ===================================================================== *)

From Stdlib Require Sorting.Sorted.
From stdpp Require sorting.

Section WriterMore.

Import Writer.

Variable filename_fn : Z → string.

Local Abbreviation tmp b := (filename_fn b +:+ ".tmp").

(** [close()] leaves no file object behind; on a writer without one it
    does nothing at all, so a second [close()] has no effect. *)
Theorem close_idempotent (s : state) :
  fp (close s) = None ∧
  close (close s) = close s ∧
  (fp s = None → close s = s).
Proof.
  assert (H : fp (close s) = None).
  { unfold close, _close_and_finalize. by destruct (fp s) eqn:E. }
  split; [done|]. split.
  - unfold close at 1. unfold _close_and_finalize. by rewrite H.
  - intros E. unfold close, _close_and_finalize. by rewrite E.
Qed.

(** A [write] to the open bucket that reaches the size threshold or the
    time threshold leaves nothing in the buffer: the temp file then holds
    what it held, the lines that were buffered and the new line, the flush
    timer is reset to the clock reading, and no other file is touched. *)
Theorem write_flushes_at_threshold (b : Z) (disk : bytes)
    (item : WriteItem) (now : float) (s : state) :
  current_bucket s = Some b →
  fp s = Some {| f_name := tmp b; f_pending := [] |} →
  files s !! tmp b = Some disk →
  bucket item = b →
  BATCH_SIZE ≤ Z.of_nat (length (buffer s)) + 1
  ∨ PrimFloat.leb FLUSH_INTERVAL_SEC (PrimFloat.sub now (last_flush s)) = true →
  let s' := write filename_fn item now s in
  buffer s' = [] ∧
  files s' !! tmp b = Some (disk ++ join (buffer s) ++ line item) ∧
  last_flush s' = now ∧
  current_bucket s' = Some b ∧
  (∀ name, name ≠ tmp b → files s' !! name = files s !! name) ∧
  trace s' = trace s ++ [EvWrite (tmp b) (join (buffer s ++ [line item]));
                         EvFlush (tmp b)].
Proof.
  intros Hb Hf Hd Hi Hdue. cbn zeta.
  rewrite write_unfold. unfold switched. rewrite Hb.
  destruct (decide (bucket item ≠ b)); [done|].
  unfold buffered.
  assert (Hfd : flush_due
            {| current_bucket := current_bucket s; fp := fp s;
               tmp_path := tmp_path s; final_path := final_path s;
               buffer := buffer s ++ [line item];
               last_flush := last_flush s; files := files s;
               trace := trace s |} now = true).
  { unfold flush_due. cbn [buffer last_flush]. rewrite length_app.
    cbn [length]. destruct Hdue as [H|H].
    - apply orb_true_iff. left. apply Z.leb_le. lia.
    - apply orb_true_iff. by right. }
  cbn zeta. rewrite Hfd. unfold fp_write, fp_flush. cbn. rewrite Hf. cbn.
  rewrite Hd. cbn. rewrite lookup_insert_eq.
  split; [done|]. split; [by rewrite join_snoc|].
  split; [done|]. split; [done|]. split.
  - intros name Hn. by rewrite lookup_insert_ne.
  - by rewrite <- app_assoc.
Qed.

(** During a run of [write] calls on one bucket of a fresh writer nothing
    is lost and nothing changes place: what the temp file holds followed by
    what is buffered is what the temp file held at the start followed by
    the lines in arrival order, whatever the clock readings; and no other
    file of the directory is touched. *)
Theorem lines_kept_in_order (b : Z) (t0 : float) (dir : gmap string bytes)
    (calls : list (WriteItem * float)) :
  calls ≠ [] →
  Forall (λ c, bucket (fst c) = b) calls →
  let s := writes filename_fn calls (init t0 dir) in
  ∃ disk,
    files s !! tmp b = Some disk ∧
    disk ++ join (buffer s)
      = default [] (dir !! tmp b) ++ join (map (λ c, line (fst c)) calls) ∧
    (∀ name, name ≠ tmp b → files s !! name = dir !! name).
Proof.
  intros Hnil Hall. destruct calls as [|[it now] calls]; [done|].
  clear Hnil. cbn zeta. apply Forall_cons in Hall as [Hi Hall].
  cbn [fst] in Hi.
  destruct (write_closed filename_fn it now _ (init_closed t0 dir))
    as (Ho1 & _). rewrite Hi in Ho1. cbn [init files] in Ho1.
  destruct (writes_same filename_fn b _ calls _ _ Ho1 Hall)
    as ((_ & _ & _ & _ & disk & Hfiles & Hc) & _).
  rewrite <- writes_cons in Hfiles, Hc. exists disk. rewrite Hfiles.
  split; [by rewrite lookup_insert_eq|]. split.
  - rewrite Hc. cbn [map fst]. unfold join. cbn [concat].
    by rewrite app_assoc.
  - intros name Hn. by rewrite lookup_insert_ne.
Qed.

(** No file of the directory has a name ending in [.tmp]. *)
Definition no_tmp (m : gmap string bytes) : Prop :=
  ∀ name, has_tmp_suffix name → m !! name = None.

(** [filename_fn] gives no name ending in [.tmp]. *)
Definition names_ok : Prop := ∀ b, ¬ has_tmp_suffix (filename_fn b).

(** The writer is Closed over a directory without temp files, or Open with
    the temp file of its bucket as the only one. *)
Definition tidy (s : state) : Prop :=
  (is_closed s ∧ no_tmp (files s)) ∨
  ∃ b others content,
    is_open filename_fn b others content s ∧ no_tmp others.

Lemma tmp_has_suffix (b : Z) : has_tmp_suffix (tmp b).
Proof. by eexists. Qed.

Lemma no_tmp_finalized (b : Z) (others : gmap string bytes) (content : bytes) :
  names_ok → no_tmp others →
  no_tmp (<[filename_fn b := content]> (delete (tmp b) others)).
Proof.
  intros Hok Hno name Hn.
  rewrite lookup_insert_ne by (intros E; apply (Hok b); by rewrite E).
  rewrite lookup_delete. case_decide; [done|]. by apply Hno.
Qed.

Lemma tidy_write (item : WriteItem) (now : float) (s : state) :
  names_ok → tidy s →
  tidy (write filename_fn item now s) ∧
  current_bucket (write filename_fn item now s) = Some (bucket item).
Proof.
  intros Hok [[Hc Hno]|(b & others & content & Ho & Hno)].
  - destruct (write_closed filename_fn item now s Hc) as (Ho & _).
    split; [|apply Ho]. right. by eexists _, _, _.
  - destruct (decide (bucket item = b)) as [Hb|Hb].
    + destruct (write_same filename_fn _ _ _ item now _ Ho Hb) as (Ho' & _).
      split; [|rewrite Hb; apply Ho']. right. by eexists _, _, _.
    + destruct (write_other filename_fn _ _ _ item now _ Ho Hb) as (Ho' & _).
      split; [|apply Ho']. right. eexists _, _, _. split; [done|].
      by apply no_tmp_finalized.
Qed.

Lemma tidy_writes (calls : list (WriteItem * float)) : ∀ s,
  names_ok → tidy s →
  tidy (writes filename_fn calls s) ∧
  (∀ c, last calls = Some c →
        current_bucket (writes filename_fn calls s) = Some (bucket (fst c))).
Proof.
  induction calls as [|[it now] calls IH]; intros s Hok Ht.
  - split; [done|]. by intros c.
  - rewrite writes_cons.
    destruct (tidy_write it now s Hok Ht) as [Ht' Hb].
    destruct (IH _ Hok Ht') as [Ht'' Hl]. split; [done|].
    intros c Hc. destruct calls as [|c' calls].
    + injection Hc as <-. by rewrite writes_nil.
    + apply Hl. by rewrite last_cons_cons in Hc.
Qed.

Lemma tidy_init (t0 : float) (dir : gmap string bytes) :
  no_tmp dir → tidy (init t0 dir).
Proof. intros H. left. split; [apply init_closed|done]. Qed.

(** Temp files, for any sequence of [write] calls on a fresh writer over a
    directory without [.tmp] names and with a [filename_fn] that gives
    none: at every moment the only [.tmp] file is that of the open bucket,
    and after [close()] there is none. *)
Theorem only_open_bucket_has_tmp (t0 : float) (dir : gmap string bytes)
    (calls : list (WriteItem * float)) :
  names_ok → no_tmp dir →
  let s := writes filename_fn calls (init t0 dir) in
  (∀ name, has_tmp_suffix name → is_Some (files s !! name) →
     ∃ b, current_bucket s = Some b ∧ name = tmp b) ∧
  (∀ name, has_tmp_suffix name → files (close s) !! name = None).
Proof.
  intros Hok Hno. cbn zeta.
  destruct (tidy_writes calls _ Hok (tidy_init t0 dir Hno)) as [Ht _].
  destruct Ht as [[Hc Hn]|(b & others & content & Ho & Hn)].
  - split.
    + intros name Hs [x Hx]. by rewrite (Hn name Hs) in Hx.
    + unfold close. by rewrite (finalize_closed _ Hc).
  - split.
    + intros name Hs [x Hx]. exists b. split; [apply Ho|].
      destruct Ho as (_ & _ & _ & _ & disk & Hf & _). rewrite Hf in Hx.
      destruct (decide (name = tmp b)) as [|Hne]; [done|].
      rewrite lookup_insert_ne, (Hn name Hs) in Hx; done.
    + destruct (close_open filename_fn _ _ _ _ Ho) as (_ & -> & _).
      by apply no_tmp_finalized.
Qed.

(** A bucket that comes back after another one replaces its earlier file:
    when a sequence of [write] calls ends with a run of lines of bucket [b]
    that follows a line of another bucket (or nothing), the final file of
    [b] after [close()] holds the lines of that last run only, whatever an
    earlier run of [b] had left there. *)
Theorem last_run_replaces_final_file (b : Z) (t0 : float)
    (dir : gmap string bytes) (pre run : list (WriteItem * float)) :
  names_ok → no_tmp dir →
  run ≠ [] →
  Forall (λ c, bucket (fst c) = b) run →
  (∀ c, last pre = Some c → bucket (fst c) ≠ b) →
  files (close (writes filename_fn (pre ++ run) (init t0 dir)))
    !! filename_fn b
  = Some (join (map (λ c, line (fst c)) run)).
Proof.
  intros Hok Hno Hnil Hall Hlast.
  destruct run as [|[it now] run]; [done|]. clear Hnil.
  apply Forall_cons in Hall as [Hi Hall]. cbn [fst] in Hi.
  unfold writes. rewrite fold_left_app.
  change (fold_left _ pre (init t0 dir))
    with (writes filename_fn pre (init t0 dir)).
  change (fold_left _ ((it, now) :: run) ?s)
    with (writes filename_fn ((it, now) :: run) s).
  destruct (tidy_writes pre _ Hok (tidy_init t0 dir Hno)) as [Ht Hcur].
  set (s1 := writes filename_fn pre (init t0 dir)) in *.
  rewrite writes_cons.
  assert (Ho : ∃ others,
    is_open filename_fn b others (line it) (write filename_fn it now s1)).
  { destruct Ht as [[Hc Hn]|(b1 & others & content & Ho & Hn)].
    - destruct (write_closed filename_fn it now s1 Hc) as (Ho & _).
      rewrite Hi in Ho. rewrite (Hn _ (tmp_has_suffix b)) in Ho. by eexists.
    - assert (Hne : bucket it ≠ b1).
      { destruct pre as [|c0 pre] using rev_ind.
        - destruct Ho as (Hb & Hf & _). by subst s1.
        - specialize (Hcur c0 (last_snoc _ _)).
          specialize (Hlast c0 (last_snoc _ _)).
          destruct Ho as (Hb & _). rewrite Hb in Hcur.
          injection Hcur as ->. by rewrite Hi. }
      destruct (write_other filename_fn _ _ _ it now _ Ho Hne) as (Ho' & _).
      rewrite Hi in Ho'.
      rewrite (no_tmp_finalized b1 others content Hok Hn _ (tmp_has_suffix b))
        in Ho'.
      by eexists. }
  destruct Ho as [others Ho].
  destruct (writes_same filename_fn b _ run _ _ Ho Hall) as (Ho' & _).
  destruct (close_open filename_fn _ _ _ _ Ho') as (_ & -> & _).
  rewrite lookup_insert_eq. cbn [map fst]. unfold join. by cbn [concat].
Qed.

(** ** Every line reaches the file of its bucket *)

(** The lines written for bucket [b], in the order of the calls. *)
Definition lines_of (b : Z) (calls : list (WriteItem * float)) : bytes :=
  join (map (λ c, line (fst c)) (filter (λ c, bucket (fst c) = b) calls)).

Definition buckets_of (calls : list (WriteItem * float)) : list Z :=
  map (λ c, bucket (fst c)) calls.

Lemma lines_of_cons_eq (b : Z) (it : WriteItem) (now : float)
    (calls : list (WriteItem * float)) :
  bucket it = b → lines_of b ((it, now) :: calls) = line it ++ lines_of b calls.
Proof. intros H. unfold lines_of. by rewrite filter_cons_True. Qed.

Lemma lines_of_cons_ne (b : Z) (it : WriteItem) (now : float)
    (calls : list (WriteItem * float)) :
  bucket it ≠ b → lines_of b ((it, now) :: calls) = lines_of b calls.
Proof. intros H. unfold lines_of. by rewrite filter_cons_False. Qed.

Lemma lines_of_absent (b : Z) (calls : list (WriteItem * float)) :
  b ∉ buckets_of calls → lines_of b calls = [].
Proof.
  induction calls as [|[it now] calls IH]; [done|]. intros H.
  rewrite lines_of_cons_ne.
  - apply IH. intros Hin. apply H. by right.
  - intros E. apply H. rewrite <- E. by left.
Qed.

Lemma open_then_close (calls : list (WriteItem * float)) :
  ∀ b others content s,
  names_ok →
  (∀ b1 b2, b1 ∈ b :: buckets_of calls → b2 ∈ b :: buckets_of calls →
            filename_fn b1 = filename_fn b2 → b1 = b2) →
  no_tmp others →
  is_open filename_fn b others content s →
  Sorted.StronglySorted Z.le (b :: buckets_of calls) →
  let s' := close (writes filename_fn calls s) in
  files s' !! filename_fn b = Some (content ++ lines_of b calls) ∧
  (∀ b', b' ∈ buckets_of calls → b' ≠ b →
         files s' !! filename_fn b' = Some (lines_of b' calls)) ∧
  (∀ name, name ≠ filename_fn b →
           (∀ b', b' ∈ buckets_of calls → name ≠ filename_fn b') →
           files s' !! name = others !! name).
Proof.
  induction calls as [|[it now] calls IH];
    intros b others content s Hok Hinj Hno Ho Hsort; cbn zeta.
  - rewrite writes_nil.
    destruct (close_open filename_fn _ _ _ _ Ho) as (_ & -> & _).
    split; [|split].
    + rewrite lookup_insert_eq. unfold lines_of. cbn. by rewrite app_nil_r.
    + by intros b' ?%elem_of_nil.
    + intros name Hne _. rewrite lookup_insert_ne by done.
      rewrite lookup_delete. case_decide as E; [|done].
      subst name. symmetry. apply Hno, tmp_has_suffix.
  - rewrite writes_cons.
    apply Sorted.StronglySorted_inv in Hsort as [Hsort Hle].
    change (buckets_of ((it, now) :: calls))
      with (bucket it :: buckets_of calls) in *.
    destruct (decide (bucket it = b)) as [Hb|Hb].
    + destruct (write_same filename_fn _ _ _ it now _ Ho Hb) as [Ho' _].
      destruct (IH b others (content ++ line it)
                  (write filename_fn it now s) Hok) as (H1 & H2 & H3);
        [| done | done | by rewrite <- Hb at 1 |].
      { intros b1 b2 H1 H2. apply Hinj.
        - apply elem_of_cons in H1 as [->|H1]; [by left|by right; right].
        - apply elem_of_cons in H2 as [->|H2]; [by left|by right; right]. }
      cbn zeta in H1, H2, H3. split; [|split].
      * rewrite H1, lines_of_cons_eq by done. by rewrite app_assoc.
      * intros b' [->|Hin]%elem_of_cons Hne; [done|].
        rewrite lines_of_cons_ne by congruence. by apply H2.
      * intros name Hne Hall. apply H3; [done|].
        intros b' Hb'. apply Hall. by right.
    + destruct (write_other filename_fn _ _ _ it now _ Ho) as [Ho' _];
        [done|]. cbn zeta in Ho'.
      pose proof (no_tmp_finalized b others content Hok Hno) as Hno'.
      rewrite (Hno' _ (tmp_has_suffix (bucket it))) in Ho'.
      cbn [default app] in Ho'.
      assert (Hlt : b < bucket it).
      { apply Forall_cons in Hle as [Hle _]. lia. }
      assert (Habs : b ∉ bucket it :: buckets_of calls).
      { intros [->|Hin]%elem_of_cons; [lia|].
        apply Sorted.StronglySorted_inv in Hsort as [_ Hge].
        rewrite Forall_forall in Hge. apply Hge in Hin. lia. }
      destruct (IH (bucket it)
                  (<[filename_fn b := content]> (delete (tmp b) others))
                  (line it) (write filename_fn it now s) Hok)
        as (H1 & H2 & H3);
        [| done | done | done |].
      { intros b1 b2 H1 H2. apply Hinj; by right. }
      cbn zeta in H1, H2, H3. split; [|split].
      * rewrite lines_of_absent by done. rewrite app_nil_r.
        rewrite H3.
        -- by rewrite lookup_insert_eq.
        -- intros E. apply Hb. symmetry. apply Hinj; [by left|by right; left|done].
        -- intros b' Hb' E. apply Habs. 
           assert (b = b') as -> by (apply Hinj; [by left|by right; right|done]).
           by right.
      * intros b' [->|Hin]%elem_of_cons Hne.
        -- by rewrite H1, lines_of_cons_eq.
        -- destruct (decide (b' = bucket it)) as [->|Hne'].
           ++ by rewrite H1, lines_of_cons_eq.
           ++ rewrite lines_of_cons_ne by congruence. by apply H2.
      * intros name Hne Hall. rewrite H3.
        -- rewrite lookup_insert_ne by done. rewrite lookup_delete.
           case_decide as E; [|done]. subst name. symmetry.
           apply Hno, tmp_has_suffix.
        -- apply Hall. by left.
        -- intros b' Hb'. apply Hall. by right.
Qed.

(** No line is lost or misplaced: when the buckets of a sequence of
    [write] calls never decrease and [filename_fn] gives them different
    names, none ending in [.tmp], then after [close()] the final file of
    every bucket holds the lines written for it, in the order of the
    calls, in place of whatever a file of that name held before; and every
    other file of a directory without [.tmp] files is as it was. *)
Theorem every_line_reaches_its_file (t0 : float) (dir : gmap string bytes)
    (calls : list (WriteItem * float)) :
  names_ok →
  (∀ b1 b2, b1 ∈ buckets_of calls → b2 ∈ buckets_of calls →
            filename_fn b1 = filename_fn b2 → b1 = b2) →
  no_tmp dir →
  Sorted.StronglySorted Z.le (buckets_of calls) →
  let s := close (writes filename_fn calls (init t0 dir)) in
  (∀ b, b ∈ buckets_of calls →
        files s !! filename_fn b = Some (lines_of b calls)) ∧
  (∀ name, (∀ b, b ∈ buckets_of calls → name ≠ filename_fn b) →
           files s !! name = dir !! name).
Proof.
  intros Hok Hinj Hno Hsort. cbn zeta.
  destruct calls as [|[it now] calls].
  { rewrite writes_nil. unfold close.
    rewrite (finalize_closed _ (init_closed t0 dir)).
    split; [by intros b ?%elem_of_nil|done]. }
  rewrite writes_cons.
  change (buckets_of ((it, now) :: calls))
    with (bucket it :: buckets_of calls) in *.
  destruct (write_closed filename_fn it now _ (init_closed t0 dir))
    as [Ho _].
  cbn [init files] in Ho. rewrite (Hno _ (tmp_has_suffix (bucket it))) in Ho.
  cbn [default app] in Ho.
  destruct (open_then_close calls (bucket it) dir (line it) _ Hok Hinj Hno Ho
              Hsort) as (H1 & H2 & H3).
  split.
  - intros b [->|Hin]%elem_of_cons.
    + by rewrite H1, lines_of_cons_eq.
    + destruct (decide (b = bucket it)) as [->|Hne].
      * by rewrite H1, lines_of_cons_eq.
      * rewrite lines_of_cons_ne by congruence. by apply H2.
  - intros name Hall. apply H3.
    + apply Hall. by left.
    + intros b' Hb'. apply Hall. by right.
Qed.

End WriterMore.

Lemma demo_names_ok : names_ok demo_filename.
Proof.
  intros b. unfold demo_filename.
  destruct (b =? 1); apply short_name_not_tmp; cbn; lia.
Qed.

Lemma no_tmp_empty : no_tmp ∅.
Proof. intros name _. apply lookup_empty. Qed.

Lemma write_flushes_at_threshold_witness :
  let s := Writer.write demo_filename (demo_item 1 [x61]) 10%float
             (Writer.init 10%float ∅) in
  Writer.buffer (Writer.write demo_filename (demo_item 1 [x62]) 11%float s)
    = [] ∧
  Writer.files (Writer.write demo_filename (demo_item 1 [x62]) 11%float s)
    !! "m1.tmp" = Some [x61; x62].
Proof.
  cbn zeta.
  pose proof (write_flushes_at_threshold demo_filename 1 []
                (demo_item 1 [x62]) 11%float
                (Writer.write demo_filename (demo_item 1 [x61]) 10%float
                   (Writer.init 10%float ∅))
                eq_refl eq_refl eq_refl eq_refl (or_intror eq_refl))
    as (H1 & H2 & _).
  exact (conj H1 H2).
Defined.

Lemma lines_kept_in_order_witness :
  ∃ disk,
    Writer.files
      (Writer.writes demo_filename
         [(demo_item 1 [x61], 10%float); (demo_item 1 [x62], 11%float);
          (demo_item 1 [x63], 11.25%float)]
         (Writer.init 10%float ∅)) !! "m1.tmp" = Some disk ∧
    disk ++ join (Writer.buffer
      (Writer.writes demo_filename
         [(demo_item 1 [x61], 10%float); (demo_item 1 [x62], 11%float);
          (demo_item 1 [x63], 11.25%float)]
         (Writer.init 10%float ∅))) = [x61; x62; x63].
Proof.
  destruct (lines_kept_in_order demo_filename 1 10%float ∅
              [(demo_item 1 [x61], 10%float); (demo_item 1 [x62], 11%float);
               (demo_item 1 [x63], 11.25%float)])
    as (disk & H1 & H2 & _).
  - discriminate.
  - repeat constructor.
  - exists disk. exact (conj H1 H2).
Defined.

Lemma only_open_bucket_has_tmp_witness :
  Writer.files
    (Writer.close
       (Writer.writes demo_filename
          [(demo_item 1 [x61], 10%float); (demo_item 2 [x62], 11%float);
           (demo_item 1 [x63], 12%float)]
          (Writer.init 10%float ∅))) !! "m1.tmp" = None.
Proof.
  assert (Hs : has_tmp_suffix "m1.tmp") by by exists "m1".
  exact (proj2 (only_open_bucket_has_tmp demo_filename 10%float ∅
                  [(demo_item 1 [x61], 10%float);
                   (demo_item 2 [x62], 11%float);
                   (demo_item 1 [x63], 12%float)]
                  demo_names_ok no_tmp_empty) "m1.tmp" Hs).
Defined.

(** Buckets 1, 2, 1: the first line of bucket 1 is gone from its file. *)
Lemma last_run_replaces_final_file_witness :
  Writer.files
    (Writer.close
       (Writer.writes demo_filename
          ([(demo_item 1 [x61], 10%float); (demo_item 2 [x62], 11%float)]
           ++ [(demo_item 1 [x63], 12%float)])
          (Writer.init 10%float ∅))) !! "m1" = Some [x63].
Proof.
  refine (last_run_replaces_final_file demo_filename 1 10%float ∅
            [(demo_item 1 [x61], 10%float); (demo_item 2 [x62], 11%float)]
            [(demo_item 1 [x63], 12%float)]
            demo_names_ok no_tmp_empty _ _ _).
  - discriminate.
  - repeat constructor.
  - intros c [= <-]. discriminate.
Defined.

Lemma every_line_reaches_its_file_witness :
  let s := Writer.close
             (Writer.writes demo_filename
                [(demo_item 1 [x61], 10%float); (demo_item 1 [x62], 11%float);
                 (demo_item 2 [x63], 12%float)]
                (Writer.init 10%float {["m1" := [x7a]]})) in
  Writer.files s !! "m1" = Some [x61; x62] ∧
  Writer.files s !! "m2" = Some [x63].
Proof.
  cbn zeta.
  assert (Hno : no_tmp ({["m1" := [x7a]]} : gmap string bytes)).
  { intros name [stem ->]. apply lookup_singleton_ne.
    intros E. apply (f_equal String.length) in E.
    rewrite length_append in E. cbn in E. lia. }
  assert (Hinj : ∀ b1 b2 : Z,
            b1 ∈ [1; 1; 2] → b2 ∈ [1; 1; 2] →
            demo_filename b1 = demo_filename b2 → b1 = b2).
  { intros b1 b2 H1 H2.
    assert (G : ∀ b : Z, b ∈ [1; 1; 2] → b = 1 ∨ b = 2).
    { intros b Hb. repeat (apply elem_of_cons in Hb as [->|Hb]; [auto|]).
      by apply elem_of_nil in Hb. }
    by destruct (G b1 H1) as [-> | ->], (G b2 H2) as [-> | ->]. }
  assert (Hs : Sorted.StronglySorted Z.le [1; 1; 2]).
  { repeat constructor; lia. }
  pose proof (every_line_reaches_its_file demo_filename 10%float
                {["m1" := [x7a]]}
                [(demo_item 1 [x61], 10%float); (demo_item 1 [x62], 11%float);
                 (demo_item 2 [x63], 12%float)]
                demo_names_ok Hinj Hno Hs) as [H _].
  split.
  - apply (H 1). by left.
  - apply (H 2). by right; right; left.
Defined.

(* ===================================================================== *)
(** * The consumer loop of the writer                                     *)
(* ===================================================================== *)

(** What [await queue.get()] gives: an item (with the clock reading of the
    [write] that follows), the sentinel [None], or an exception raised at
    the [await], as when the task is cancelled. *)
Inductive got :=
| Item (item : Writer.WriteItem) (now : float)
| Sentinel
| Cancelled.

(** How far the loop is: waiting for the queue, returned, or left by an
    exception. *)
Inductive loop_end :=
| Waiting
| Returned
| Raised.

Record loop_result := {
  ending : loop_end;
  writer : Writer.state;
  task_done : nat
}.

(** The [while True] loop of [writer_loop] with its [finally], on what the
    queue delivers; [n] counts the calls of [queue.task_done()]. *)
Fixpoint consume (filename_fn : Z → string) (q : list got) (n : nat)
    (s : Writer.state) : loop_result :=
  match q with
  | [] => {| ending := Waiting; writer := s; task_done := n |}
  | Sentinel :: _ =>
      {| ending := Returned; writer := Writer.close s; task_done := S n |}
  | Cancelled :: _ =>
      {| ending := Raised; writer := Writer.close s; task_done := n |}
  | Item item now :: q =>
      consume filename_fn q (S n) (Writer.write filename_fn item now s)
  end.

(** [writer_loop]; [t0] is the clock reading when the writer is made. *)
Definition writer_loop (filename_fn : Z → string) (t0 : float)
    (dir : gmap string bytes) (q : list got) : loop_result :=
  consume filename_fn q 0 (Writer.init t0 dir).

Definition items_of (calls : list (Writer.WriteItem * float)) : list got :=
  map (λ c, Item (fst c) (snd c)) calls.

Lemma consume_items (filename_fn : Z → string)
    (calls : list (Writer.WriteItem * float)) (rest : list got) :
  ∀ n s,
  consume filename_fn (items_of calls ++ rest) n s
  = consume filename_fn rest (length calls + n)
      (Writer.writes filename_fn calls s).
Proof.
  induction calls as [|[it now] calls IH]; intros n s; [done|].
  cbn [items_of map app consume fst snd length].
  fold (items_of calls). rewrite IH, writes_cons. f_equal. lia.
Qed.

(** The loop writes the items in the order the queue delivers them and
    acknowledges each one once.  At the sentinel it acknowledges it, closes
    the writer and returns, and what the queue holds after the sentinel is
    never written; an exception at the [await] closes the writer too;
    and as long as neither comes the writer stays as the [write] calls
    left it, not closed. *)
Theorem writer_loop_until_sentinel (filename_fn : Z → string) (t0 : float)
    (dir : gmap string bytes) (calls : list (Writer.WriteItem * float))
    (rest : list got) :
  let s := Writer.writes filename_fn calls (Writer.init t0 dir) in
  writer_loop filename_fn t0 dir (items_of calls ++ Sentinel :: rest)
    = {| ending := Returned; writer := Writer.close s;
         task_done := S (length calls) |} ∧
  writer_loop filename_fn t0 dir (items_of calls ++ Cancelled :: rest)
    = {| ending := Raised; writer := Writer.close s;
         task_done := length calls |} ∧
  writer_loop filename_fn t0 dir (items_of calls)
    = {| ending := Waiting; writer := s; task_done := length calls |}.
Proof.
  cbn zeta. unfold writer_loop. split; [|split].
  - rewrite consume_items. cbn [consume]. by rewrite Nat.add_0_r.
  - rewrite consume_items. cbn [consume]. by rewrite Nat.add_0_r.
  - rewrite <- (app_nil_r (items_of calls)) at 1.
    rewrite consume_items. cbn [consume]. by rewrite Nat.add_0_r.
Qed.

(** Two items, the sentinel, and an item that comes too late. *)
Example writer_loop_example :
  let r := writer_loop demo_filename 10%float ∅
             [Item (demo_item 1 [x61]) 10%float;
              Item (demo_item 2 [x62]) 11%float; Sentinel;
              Item (demo_item 2 [x63]) 12%float] in
  ending r = Returned ∧ task_done r = 3%nat ∧
  Writer.files (writer r) !! "m1" = Some [x61] ∧
  Writer.files (writer r) !! "m2" = Some [x62] ∧
  Writer.files (writer r) !! "m2.tmp" = None.
Proof. by vm_compute. Qed.

(* ===================================================================== *)
(** * More on the normalizer                                              *)
(* ===================================================================== *)

(** ** The schema check *)

Lemma has_all_total (raw : value) (c : string → bool) (ks : list string) :
  (∀ k, contains raw k = Ok (c k)) → has_all raw ks = Ok (forallb c ks).
Proof.
  intros H. induction ks as [|k ks IH]; [done|].
  cbn [has_all forallb]. rewrite H. cbn. by destruct (c k).
Qed.

(** A JSON value that is no object, array or string. *)
Definition is_scalar (raw : value) : Prop :=
  match raw with
  | VNone | VBool _ | VInt _ | VFloat _ => True
  | VStr _ | VList _ | VDict _ => False
  end.

Lemma is_depth_delta_scalar (raw : value) :
  is_scalar raw → is_depth_delta raw = Raise TypeError.
Proof. by destruct raw. Qed.

(** [is_depth_delta] returns on an object, and returns true exactly when
    the nine required keys are all there; it returns on an array, and
    returns true exactly when the nine names are all among its elements;
    it returns on a string; on [None], a [bool], an [int] or a [float] it
    raises [TypeError]. *)
Theorem is_depth_delta_cases :
  (∀ kv, ∃ b, is_depth_delta (VDict kv) = Ok b ∧
     (b = true ↔ ∀ k, k ∈ required → is_Some (assoc k kv))) ∧
  (∀ l, ∃ b, is_depth_delta (VList l) = Ok b ∧
     (b = true ↔ ∀ k, k ∈ required → VStr k ∈ l)) ∧
  (∀ s, ∃ b, is_depth_delta (VStr s) = Ok b) ∧
  (∀ raw, is_scalar raw → is_depth_delta raw = Raise TypeError).
Proof.
  split; [|split; [|split]].
  - intros kv. eexists. split.
    + apply (has_all_total _ (λ k, match assoc k kv with
                                   | Some _ => true
                                   | None => false
                                   end)). done.
    + rewrite forallb_forall. split.
      * intros H k Hk. apply list_elem_of_In, H in Hk.
        by destruct (assoc k kv).
      * intros H k Hk. apply list_elem_of_In, H in Hk as [v ->]. done.
  - intros l. eexists. split.
    + apply (has_all_total _ (λ k, existsb (λ x, match x with
                                                 | VStr s => String.eqb s k
                                                 | _ => false
                                                 end) l)). done.
    + rewrite forallb_forall. split.
      * intros H k Hk. apply list_elem_of_In, H, existsb_exists in Hk
          as (x & Hx & Hm).
        destruct x; try done. apply String.eqb_eq in Hm as ->.
        by apply list_elem_of_In.
      * intros H k Hk. apply list_elem_of_In, H in Hk.
        apply existsb_exists. exists (VStr k).
        split; [by apply list_elem_of_In|]. apply String.eqb_refl.
  - intros s. eexists.
    apply (has_all_total _ (λ k, match String.index 0 k s with
                                 | Some _ => true
                                 | None => false
                                 end)). done.
  - apply is_depth_delta_scalar.
Qed.

(** ** The book under repeated and reordered levels *)

Lemma apply_levels_lookup_from (side : gmap Z Z) (ls : list (Z * Z)) (p : Z) :
  apply_levels side ls !! p =
  match last_seen p ls with
  | Some q => if q =? 0 then None else Some q
  | None => side !! p
  end.
Proof.
  induction ls as [|[p' q'] ls IH] using rev_ind; [done|].
  unfold apply_levels. rewrite fold_left_app. cbn [fold_left].
  fold (apply_levels side ls). rewrite last_seen_snoc. cbn [fst snd].
  unfold apply_level.
  destruct (Z.eqb_spec p' p) as [->|Hne].
  - destruct (q' =? 0); [apply lookup_delete_eq|apply lookup_insert_eq].
  - destruct (q' =? 0);
      [rewrite lookup_delete_ne by done|rewrite lookup_insert_ne by done];
      apply IH.
Qed.

Lemma last_seen_NoDup (ls : list (Z * Z)) (p q : Z) :
  NoDup ls.*1 → last_seen p ls = Some q ↔ (p, q) ∈ ls.
Proof.
  induction ls as [|[p' q'] ls IH] using rev_ind; intros Hnd.
  - cbn. split; [done|by intros ?%elem_of_nil].
  - rewrite fmap_app in Hnd. apply NoDup_app in Hnd as (Hnd & Hdis & _).
    rewrite last_seen_snoc, elem_of_app, list_elem_of_singleton. cbn [fst snd].
    destruct (Z.eqb_spec p' p) as [->|Hne].
    + split.
      * intros [= ->]. by right.
      * intros [Hin|[= ->]]; [|done]. exfalso.
        apply (Hdis p); [|by left].
        apply list_elem_of_fmap. by exists (p, q).
    + rewrite (IH Hnd). split; [by left|].
      intros [Hin|[= -> ->]]; done.
Qed.

Lemma last_seen_perm (ls ls' : list (Z * Z)) (p : Z) :
  NoDup ls.*1 → ls ≡ₚ ls' → last_seen p ls = last_seen p ls'.
Proof.
  intros Hnd Hp.
  assert (Hnd' : NoDup ls'.*1) by by rewrite <- Hp.
  destruct (last_seen p ls) as [q|] eqn:E.
  - symmetry. apply last_seen_NoDup; [done|].
    rewrite <- Hp. by apply last_seen_NoDup.
  - destruct (last_seen p ls') as [q|] eqn:E'; [|done].
    apply last_seen_NoDup in E'; [|done]. rewrite <- Hp in E'.
    apply last_seen_NoDup in E'; [|done]. congruence.
Qed.

(** Applying a delta a second time changes nothing: the book after
    [apply] is a fixed point of that [apply], whatever the book was. *)
Theorem apply_idempotent (b a : list (Z * Z)) (book : TopBook) :
  apply b a (apply b a book) = apply b a book.
Proof.
  unfold apply. cbn [bids asks]. f_equal; apply map_eq; intros p;
    rewrite !apply_levels_lookup_from;
    by destruct (last_seen p _).
Qed.

(** When the levels of each side of a delta have different prices, the
    order in which they are listed does not matter. *)
Theorem apply_order_irrelevant (b b' a a' : list (Z * Z)) (book : TopBook) :
  NoDup b.*1 → NoDup a.*1 → b ≡ₚ b' → a ≡ₚ a' →
  apply b a book = apply b' a' book.
Proof.
  intros Hb Ha Pb Pa. unfold apply. f_equal; apply map_eq; intros p;
    rewrite !apply_levels_lookup_from.
  - by rewrite (last_seen_perm b b' p Hb Pb).
  - by rewrite (last_seen_perm a a' p Ha Pa).
Qed.

Lemma apply_order_irrelevant_witness :
  apply [(1, 2); (3, 4)] [] empty_book = apply [(3, 4); (1, 2)] [] empty_book.
Proof.
  apply apply_order_irrelevant.
  - cbn. apply NoDup_cons. split; [|apply NoDup_singleton].
    intros H%list_elem_of_singleton. discriminate H.
  - constructor.
  - apply Permutation_swap.
  - done.
Defined.

(** ** Mid and micro price *)

(** On a book that is not crossed, the mid price lies within the spread,
    and so does the micro price when no size is negative; with the same
    size on both sides the two agree. *)
Theorem mid_micro_within_spread (bid bid_sz ask ask_sz : Z) :
  bid ≤ ask → 0 ≤ bid_sz → 0 ≤ ask_sz →
  bid ≤ mid_fp bid ask ≤ ask ∧
  bid ≤ micro_fp bid bid_sz ask ask_sz ≤ ask ∧
  (bid_sz = ask_sz → micro_fp bid bid_sz ask ask_sz = mid_fp bid ask).
Proof.
  intros Hba Hb Ha.
  assert (Hmid : bid ≤ mid_fp bid ask ≤ ask).
  { unfold mid_fp. split.
    - apply Z.div_le_lower_bound; lia.
    - apply Z.div_le_upper_bound; lia. }
  split; [done|]. unfold micro_fp.
  destruct (Z.leb_spec (bid_sz + ask_sz) 0) as [Hd|Hd]; [done|].
  split.
  - split.
    + apply Z.div_le_lower_bound; [lia|]. nia.
    + apply Z.div_le_upper_bound; [lia|]. nia.
  - intros ->. unfold mid_fp.
    replace (ask * ask_sz + bid * ask_sz) with ((bid + ask) * ask_sz) by lia.
    replace (ask_sz + ask_sz) with (2 * ask_sz) by lia.
    apply Z.div_mul_cancel_r; lia.
Qed.

(** ** Numerals within the scale *)



Lemma mid_micro_within_spread_witness :
  100 ≤ mid_fp 100 103 ≤ 103 ∧
  100 ≤ micro_fp 100 3 103 1 ≤ 103 ∧
  (3 = 1 → micro_fp 100 3 103 1 = mid_fp 100 103).
Proof. apply (mid_micro_within_spread 100 3 103 1); lia. Defined.

Section PassMore.

Variable loads : bytes → option value.
Variable dumps_delta : delta → option bytes.
Variable dumps_px : price_record → option bytes.
Variable to_fp_other : value → Z → exc Z.
Variable dump_audit : string → string → string → Z → Audit.t → bytes.

Local Abbreviation process_kept := (process_kept dumps_delta dumps_px).
Local Abbreviation process_line :=
  (process_line loads dumps_delta dumps_px to_fp_other).
Local Abbreviation process_lines :=
  (process_lines loads dumps_delta dumps_px to_fp_other).
Local Abbreviation process_raw_file :=
  (process_raw_file loads dumps_delta dumps_px to_fp_other dump_audit).
Local Abbreviation normalize_delta := (normalize_delta to_fp_other).
Local Abbreviation normalize_level := (normalize_level to_fp_other).
Local Abbreviation normalize_levels := (normalize_levels to_fp_other).

Lemma process_lines_app (pre post : list bytes) (st : pass) :
  process_lines (pre ++ post) st =
  match process_lines pre st with
  | (st', None) => process_lines post st'
  | (st', Some e) => (st', Some e)
  end.
Proof.
  revert st. induction pre as [|l pre IH]; intros st; [done|].
  cbn [app Normalize.process_lines].
  destruct (process_line l st) as [st1 [e|]]; [done|apply IH].
Qed.

Lemma dropped_line_effect (line : bytes) (st : pass) :
  loads line = None
  ∨ (∃ raw, loads line = Some raw ∧
       (is_depth_delta raw = Ok false
        ∨ (is_depth_delta raw = Ok true ∧ raises (normalize_delta raw)))) →
  let st' := fst (process_line line st) in
  snd (process_line line st) = None ∧
  book st' = book st ∧ prev_u st' = prev_u st ∧
  fnorm st' = fnorm st ∧ fpx st' = fpx st ∧
  Audit.raw_lines (audit st') = Audit.raw_lines (audit st) + 1 ∧
  Audit.kept_lines (audit st') = Audit.kept_lines (audit st) ∧
  Audit.bad_json (audit st') + Audit.skipped_schema (audit st')
    + Audit.normalize_errors (audit st')
    = Audit.bad_json (audit st) + Audit.skipped_schema (audit st)
      + Audit.normalize_errors (audit st) + 1 ∧
  Audit.gaps (audit st') = Audit.gaps (audit st) ∧
  Audit.continuity_ok (audit st') = Audit.continuity_ok (audit st) ∧
  Audit.first_gap (audit st') = Audit.first_gap (audit st).
Proof.
  cbn zeta. unfold Normalize.process_line.
  intros [->|(raw & -> & [->|[-> [e He]]])]; cbn.
  - repeat split; lia.
  - repeat split; lia.
  - rewrite He. cbn. repeat split; lia.
Qed.


(** A line that decodes to [None], a [bool], an [int] or a [float] ends the
    pass with the [TypeError] of the schema check, counted in [raw_lines]
    only. *)
Lemma scalar_line_raises (line : bytes) (raw : value) (st : pass) :
  loads line = Some raw → is_scalar raw →
  process_line line st
    = (set_audit (count_raw_line (audit st)) st, Some TypeError).
Proof.
  intros Hl Hs. unfold Normalize.process_line. rewrite Hl.
  by rewrite (is_depth_delta_scalar raw Hs).
Qed.

(** A scalar line ends the pass over its file: the lines after it are not
    read, the normalized and the price file hold what the lines before it
    gave, and no audit file is written. *)
Theorem scalar_line_aborts_file (stem : string) (now : Z) (fs : tree)
    (data : bytes) (pre post : list bytes) (line : bytes) (raw : value)
    (st1 : pass) :
  ¬ complete stem fs →
  raw_dir fs !! (stem +:+ ".jsonl") = Some data →
  iter_lines data = pre ++ line :: post →
  process_lines pre start = (st1, None) →
  loads line = Some raw → is_scalar raw →
  process_raw_file stem now fs =
    (Aborted TypeError,
     {| raw_dir := raw_dir fs;
        norm_dir := <[stem +:+ ".fp.jsonl" := fnorm st1]> (norm_dir fs);
        prices_dir := <[stem +:+ ".prices.jsonl" := fpx st1]> (prices_dir fs);
        audit_dir := audit_dir fs |}).
Proof.
  intros Hc Hraw Hit Hpre Hl Hs.
  rewrite (process_incomplete loads dumps_delta dumps_px to_fp_other
             dump_audit _ _ _ Hc), Hraw, Hit.
  rewrite process_lines_app, Hpre. cbn [Normalize.process_lines].
  rewrite (scalar_line_raises _ _ _ Hl Hs). done.
Qed.

(** ** Normalizing a delta *)

Lemma normalize_levels_ok (ls : list value) (ps : list (Z * Z)) :
  normalize_levels ls = Ok ps ↔
  Forall2 (λ l p, normalize_level l = Ok p) ls ps.
Proof.
  revert ps. induction ls as [|l ls IH]; intros ps.
  - cbn. split; [intros [= <-]; constructor|by inversion 1].
  - cbn [Normalize.normalize_levels]. split.
    + destruct (normalize_level l) as [p|] eqn:E; [|done].
      cbn [mbind exc_bind].
      destruct (Normalize.normalize_levels to_fp_other ls) as [qs|] eqn:E';
        [|done].
      cbn. intros [= <-]. constructor; [done|]. by apply IH.
    + intros H. apply Forall2_cons_inv_l in H as (p & qs & Hp & Hqs & ->).
      apply IH in Hqs. rewrite Hp. cbn [mbind exc_bind].
      by rewrite Hqs.
Qed.

Lemma normalize_levels_raises (ls : list value) (l : value) :
  l ∈ ls → raises (normalize_level l) → raises (normalize_levels ls).
Proof.
  induction ls as [|l0 ls IH]; [by intros ?%elem_of_nil|].
  intros [->|Hin]%elem_of_cons Hr; cbn [Normalize.normalize_levels].
  - destruct Hr as [e ->]. by exists e.
  - destruct (normalize_level l0); [|by eexists]. cbn [mbind exc_bind].
    destruct (IH Hin Hr) as [e ->]. by exists e.
Qed.

Ltac bind_ok H E :=
  match type of H with
  | mbind _ ?m = Ok _ =>
      destruct m eqn:E; cbn [mbind exc_bind] in H; [|discriminate H]
  end.

(** What a normalized delta holds: the five identifying fields and the two
    update ids are those of the raw object, the event time is its
    [event_ts_ms] times 1000000, and each side has one pair per level of
    the raw side, in the order of the raw levels, each the result of
    [normalize_level] on its level. *)
Theorem normalize_delta_fields (raw : value) (d : delta) :
  normalize_delta raw = Ok d →
  getitem raw "exchange" = Ok (d_exchange d) ∧
  getitem raw "symbol" = Ok (d_symbol d) ∧
  getitem raw "conn_id" = Ok (d_conn_id d) ∧
  getitem raw "recv_ts_ns" = Ok (d_recv_ts_ns d) ∧
  (∃ ms, getitem raw "event_ts_ms" = Ok ms ∧
         py_mul_int ms 1000000 = Ok (d_event_ts_ns d)) ∧
  getitem raw "U" = Ok (d_U d) ∧
  getitem raw "u" = Ok (d_u d) ∧
  (∃ vb lb, getitem raw "b" = Ok vb ∧ iterate vb = Ok lb ∧
            length (d_b d) = length lb ∧
            Forall2 (λ l p, normalize_level l = Ok p) lb (d_b d)) ∧
  (∃ va la, getitem raw "a" = Ok va ∧ iterate va = Ok la ∧
            length (d_a d) = length la ∧
            Forall2 (λ l p, normalize_level l = Ok p) la (d_a d)).
Proof.
  unfold Normalize.normalize_delta. intros H.
  bind_ok H E1. bind_ok H E2. bind_ok H E3. bind_ok H E4. bind_ok H E5.
  bind_ok H E6. bind_ok H E7. bind_ok H E8. bind_ok H E9. bind_ok H E10.
  bind_ok H E11. bind_ok H E12. bind_ok H E13. bind_ok H E14.
  injection H as <-. cbn.
  apply normalize_levels_ok in E11, E14.
  pose proof (Forall2_length _ _ _ E11). pose proof (Forall2_length _ _ _ E14).
  repeat split; try done; eauto 10.
Qed.

(** One level that cannot be normalized is enough for the whole delta to
    be rejected, whatever the rest of the object holds; and a level that is
    a list of fewer than two items cannot be normalized. *)
Theorem bad_level_rejects_delta (raw : value) :
  (∀ side v ls l, side = "b" ∨ side = "a" →
     getitem raw side = Ok v → iterate v = Ok ls →
     l ∈ ls → raises (normalize_level l) → raises (normalize_delta raw)) ∧
  (∀ items, (length items < 2)%nat → raises (normalize_level (VList items))).
Proof.
  split.
  - intros side v ls l Hside Hv Hls Hin Hr.
    pose proof (normalize_levels_raises ls l Hin Hr) as [e He].
    unfold Normalize.normalize_delta.
    repeat match goal with
    | |- raises (mbind _ ?m) =>
        let E := fresh "E" in
        destruct m eqn:E; cbn [mbind exc_bind]; [|by eexists]
    end.
    exfalso. destruct Hside as [-> | ->]; congruence.
  - intros [|x [|y items]] Hlen; cbn in Hlen; try lia.
    + by exists IndexError.
    + unfold Normalize.normalize_level. cbn.
      destruct (to_fp_value to_fp_other x PRICE_SCALE); by eexists.
Qed.

(** A raw file none of whose lines is kept is still completed: the pass
    leaves an empty normalized file and an empty price file, and an audit
    with no kept line; so it is for an empty raw file. *)
Theorem unkept_file_completes_empty (stem : string) (now : Z) (fs : tree)
    (data : bytes) :
  ¬ complete stem fs →
  raw_dir fs !! (stem +:+ ".jsonl") = Some data →
  Forall (λ line, loads line = None
            ∨ (∃ raw, loads line = Some raw ∧
                 (is_depth_delta raw = Ok false
                  ∨ (is_depth_delta raw = Ok true
                     ∧ raises (normalize_delta raw))))) (iter_lines data) →
  ∃ a,
    process_raw_file stem now fs =
      (Completed,
       {| raw_dir := raw_dir fs;
          norm_dir := <[stem +:+ ".fp.jsonl" := []]> (norm_dir fs);
          prices_dir := <[stem +:+ ".prices.jsonl" := []]> (prices_dir fs);
          audit_dir :=
            <[stem +:+ ".audit.json" :=
                dump_audit (stem +:+ ".jsonl") (stem +:+ ".fp.jsonl")
                  (stem +:+ ".prices.jsonl") now a]> (audit_dir fs) |}) ∧
    Audit.kept_lines a = 0 ∧ Audit.gaps a = 0 ∧
    Audit.continuity_ok a = true ∧
    Audit.raw_lines a = Z.of_nat (length (iter_lines data)) ∧
    Audit.bad_json a + Audit.skipped_schema a + Audit.normalize_errors a
      = Audit.raw_lines a.
Proof.
  intros Hc Hraw Hall.
  assert (G : ∀ ls st, Forall (λ line, loads line = None
            ∨ (∃ raw, loads line = Some raw ∧
                 (is_depth_delta raw = Ok false
                  ∨ (is_depth_delta raw = Ok true
                     ∧ raises (normalize_delta raw))))) ls →
    ∃ st', process_lines ls st = (st', None) ∧
      fnorm st' = fnorm st ∧ fpx st' = fpx st ∧
      Audit.kept_lines (audit st') = Audit.kept_lines (audit st) ∧
      Audit.gaps (audit st') = Audit.gaps (audit st) ∧
      Audit.continuity_ok (audit st') = Audit.continuity_ok (audit st) ∧
      Audit.raw_lines (audit st')
        = Audit.raw_lines (audit st) + Z.of_nat (length ls) ∧
      Audit.bad_json (audit st') + Audit.skipped_schema (audit st')
        + Audit.normalize_errors (audit st')
        = Audit.bad_json (audit st) + Audit.skipped_schema (audit st)
          + Audit.normalize_errors (audit st) + Z.of_nat (length ls)).
  { induction ls as [|l ls IH]; intros st Hls.
    - exists st. cbn. repeat split; lia.
    - apply Forall_cons in Hls as [Hl Hls].
      cbn [Normalize.process_lines].
      pose proof (dropped_line_effect l st Hl)
        as (H0 & _ & _ & H1 & H2 & H3 & H4 & H5 & H6 & H7 & _).
      destruct (process_line l st) as [s1 r]. cbn [fst snd] in *.
      subst r. destruct (IH s1 Hls)
        as (st' & -> & G1 & G2 & G3 & G4 & G5 & G6 & G7).
      exists st'. split; [done|].
      rewrite G1, G2, G3, G4, G5, G6, G7, H1, H2, H3, H4, H5, H6, H7.
      cbn [length]. repeat split; lia. }
  destruct (G (iter_lines data) start Hall)
    as (st & Hst & G1 & G2 & G3 & G4 & G5 & G6 & G7).
  exists (audit st).
  rewrite (process_incomplete loads dumps_delta dumps_px to_fp_other
             dump_audit _ _ _ Hc), Hraw, Hst.
  cbn [fst snd norm_dir prices_dir]. rewrite G1, G2.
  split; [done|]. cbn in G3, G4, G5, G6, G7. repeat split; try done; lia.
Qed.

(** An audit file left by an earlier run makes a failed pass look
    complete: when the pass over a raw file raises and an audit file of
    that name was there, the audit is left as it was, the three outputs
    all exist, and the next pass skips the file with its partial
    outputs. *)
Theorem failed_pass_with_old_audit_is_skipped (stem : string) (now now' : Z)
    (fs fs' : tree) (e : exn) :
  is_Some (raw_dir fs !! (stem +:+ ".jsonl")) →
  is_Some (audit_dir fs !! (stem +:+ ".audit.json")) →
  process_raw_file stem now fs = (Aborted e, fs') →
  audit_dir fs' = audit_dir fs ∧ complete stem fs' ∧
  process_raw_file stem now' fs' = (Skipped, fs').
Proof.
  intros [data Hraw] Ha H.
  destruct (decide (complete stem fs)) as [Hc|Hc].
  { by rewrite (process_complete loads dumps_delta dumps_px to_fp_other
                  dump_audit _ _ _ Hc) in H. }
  rewrite (process_incomplete loads dumps_delta dumps_px to_fp_other
             dump_audit _ _ _ Hc), Hraw in H. cbn zeta in H.
  destruct (Normalize.process_lines _ _ _ _ _ _) as [st [e'|]];
    cbn [fst snd] in H; [|done].
  injection H as <- <-. cbn [audit_dir].
  assert (Hc' : complete stem
    {| raw_dir := raw_dir fs;
       norm_dir := <[stem +:+ ".fp.jsonl" := fnorm st]> (norm_dir fs);
       prices_dir := <[stem +:+ ".prices.jsonl" := fpx st]> (prices_dir fs);
       audit_dir := audit_dir fs |}).
  { repeat split; cbn; [by rewrite lookup_insert_eq..|done]. }
  split; [done|]. split; [done|].
  by apply process_complete.
Qed.

(** ** What a pass keeps true *)

(** The text of a sequence of encoded records, one per line. *)
Definition records (outs : list bytes) : bytes :=
  concat (map (λ o, o ++ newline) outs).

Lemma records_snoc (outs : list bytes) (o : bytes) :
  records (outs ++ [o]) = records outs ++ o ++ newline.
Proof.
  unfold records. rewrite map_app, concat_app. cbn.
  by rewrite app_nil_r.
Qed.

(** The outputs are sequences of records: the normalized output has one
    per kept line, the price output at most one. *)
Definition outputs_match (st : pass) : Prop :=
  ∃ outs_n outs_p,
    fnorm st = records outs_n ∧ fpx st = records outs_p ∧
    Z.of_nat (length outs_n) = Audit.kept_lines (audit st) ∧
    (length outs_p ≤ length outs_n)%nat.

Lemma process_line_outputs (line : bytes) (st : pass) :
  outputs_match st → snd (process_line line st) = None →
  outputs_match (fst (process_line line st)).
Proof.
  intros (on & op & Hn & Hp & Hk & Hle). unfold Normalize.process_line.
  destruct (loads line) as [raw|]; [|intros _; by exists on, op].
  destruct (is_depth_delta raw) as [[]|]; [|intros _; by exists on, op|done].
  destruct (normalize_delta raw) as [d|]; [|intros _; by exists on, op].
  unfold Normalize.process_kept. cbn [set_audit prev_u audit].
  destruct (continuity_ok _ _ _) as [ok|]; [|done].
  destruct (dumps_delta d) as [out|]; [|by destruct ok].
  assert (Hk' : Z.of_nat (length (on ++ [out]))
                = Audit.kept_lines (audit st) + 1).
  { rewrite length_app. cbn. lia. }
  destruct ok; cbn [audit book prev_u fnorm fpx];
    (destruct (best _) as [[[[? ?] ?] ?]|];
     [destruct (dumps_px _) as [o|]; [|done]|]);
    intros _; cbn [fst].
  - exists (on ++ [out]), (op ++ [o]). cbn.
    rewrite !records_snoc, Hn, Hp, !length_app. cbn. repeat split; lia.
  - exists (on ++ [out]), op. cbn.
    rewrite !records_snoc, Hn, Hp, !length_app. cbn. repeat split; lia.
  - exists (on ++ [out]), (op ++ [o]). cbn.
    rewrite !records_snoc, Hn, Hp, !length_app. cbn. repeat split; lia.
  - exists (on ++ [out]), op. cbn.
    rewrite !records_snoc, Hn, Hp, !length_app. cbn. repeat split; lia.
Qed.

(** After a pass that ran to its end the normalized output is a sequence
    of exactly [kept_lines] records, each followed by a newline, and the
    price output is a sequence of at most as many. *)
Theorem outputs_have_kept_records (lines : list bytes) (st : pass) :
  process_lines lines start = (st, None) →
  ∃ outs_n outs_p,
    fnorm st = records outs_n ∧ fpx st = records outs_p ∧
    Z.of_nat (length outs_n) = Audit.kept_lines (audit st) ∧
    (length outs_p ≤ length outs_n)%nat.
Proof.
  assert (G : ∀ ls s0 s1, outputs_match s0 →
            process_lines ls s0 = (s1, None) → outputs_match s1).
  { induction ls as [|l ls IH]; intros s0 s1 H0 H.
    - by injection H as <-.
    - cbn [Normalize.process_lines] in H.
      pose proof (process_line_outputs l s0 H0) as Hs.
      destruct (process_line l s0) as [s' [e|]]; [done|].
      apply (IH s'); [by apply Hs|done]. }
  intros H. apply (G lines start st); [|done]. by exists [], [].
Qed.

(** The gap record of the audit is coherent, and a gap takes two kept
    lines: one that set the baseline and the one that broke it. *)
Definition gaps_coherent (st : pass) : Prop :=
  let a := audit st in
  0 ≤ Audit.raw_lines a ∧ 0 ≤ Audit.gaps a ∧
  (Audit.continuity_ok a = true ↔ Audit.gaps a = 0) ∧
  (Audit.first_gap a = None ↔ Audit.gaps a = 0) ∧
  (∀ g, Audit.first_gap a = Some g → 1 ≤ g_line g ≤ Audit.raw_lines a) ∧
  match prev_u st with
  | VNone => 2 * Audit.gaps a ≤ Audit.kept_lines a
  | _ => 2 * Audit.gaps a + 1 ≤ Audit.kept_lines a
  end.

Lemma gaps_coherent_weaken (st : pass) :
  gaps_coherent st → 2 * Audit.gaps (audit st) ≤ Audit.kept_lines (audit st).
Proof. intros (_ & _ & _ & _ & _ & H). destruct (prev_u st); lia. Qed.

Lemma continuity_ok_none (U u : value) : continuity_ok VNone U u = Ok true.
Proof. done. Qed.

Lemma process_kept_gaps (d : delta) (st : pass) :
  0 < Audit.raw_lines (audit st) →
  gaps_coherent st → gaps_coherent (fst (process_kept d st)).
Proof.
  intros Hr (H0 & Hg & Hc & Hf & Hl & Hp).
  unfold Normalize.process_kept. cbn [set_audit prev_u audit].
  assert (Hbase : gaps_coherent
            (set_audit (count_kept_line (audit st)) st)).
  { unfold gaps_coherent. cbn. repeat split; try done; try apply Hc;
      try apply Hf; try (by apply Hl). destruct (prev_u st); lia. }
  destruct (continuity_ok (prev_u st) (d_U d) (d_u d)) as [ok|] eqn:E;
    [|done].
  assert (Hstep : gaps_coherent
    (if ok
     then {| audit := count_kept_line (audit st); book := book st;
             prev_u := d_u d; fnorm := fnorm st; fpx := fpx st |}
     else {| audit := record_gap (prev_u st) (d_U d) (d_u d)
                        (count_kept_line (audit st));
             book := book st; prev_u := VNone;
             fnorm := fnorm st; fpx := fpx st |})).
  { destruct ok.
    - unfold gaps_coherent. cbn. repeat split; try done; try apply Hc;
        try apply Hf; try (by apply Hl).
      destruct (prev_u st) eqn:E1, (d_u d) eqn:E2; lia.
    - assert (Hne : prev_u st ≠ VNone).
      { intros Hn. by rewrite Hn, continuity_ok_none in E. }
      unfold gaps_coherent. cbn. repeat split; try lia; try done.
      + by destruct (Audit.first_gap (audit st)).
      + destruct (Audit.first_gap (audit st)) as [g0|] eqn:Eg; simplify_eq;
          [specialize (Hl _ eq_refl); lia | cbn; lia].
      + destruct (Audit.first_gap (audit st)) as [g0|] eqn:Eg; simplify_eq;
          [specialize (Hl _ eq_refl); lia | cbn; lia].
      + destruct (prev_u st); try done; lia. }
  cbn [set_audit audit book prev_u fnorm fpx] in *.
  destruct (dumps_delta d) as [out|]; [|by destruct ok].
  assert (Hw : ∀ s f1 f2 bk,
    gaps_coherent s →
    gaps_coherent {| audit := audit s; book := bk; prev_u := prev_u s;
                     fnorm := f1; fpx := f2 |}) by done.
  destruct ok; cbn [audit book prev_u fnorm fpx];
    (destruct (best _) as [[[[? ?] ?] ?]|];
     [destruct (dumps_px _) as [o|]|]); cbn [fst];
    first [exact Hstep | by apply (Hw _ _ _ _ Hstep)].
Qed.

Lemma process_line_gaps (line : bytes) (st : pass) :
  gaps_coherent st → gaps_coherent (fst (process_line line st)).
Proof.
  intros H. pose proof H as (H0 & Hg & Hc & Hf & Hl & Hp).
  assert (Hbase : gaps_coherent (set_audit (count_raw_line (audit st)) st)).
  { unfold gaps_coherent. cbn. repeat split; try done; try lia;
      try apply Hc; try apply Hf;
      match goal with Hgp : _ = Some _ |- _ => apply Hl in Hgp; lia end. }
  assert (Hw : ∀ s a,
    gaps_coherent s →
    Audit.raw_lines a = Audit.raw_lines (audit s) →
    Audit.kept_lines a = Audit.kept_lines (audit s) →
    Audit.gaps a = Audit.gaps (audit s) →
    Audit.continuity_ok a = Audit.continuity_ok (audit s) →
    Audit.first_gap a = Audit.first_gap (audit s) →
    gaps_coherent (set_audit a s)).
  { intros s a Hs E1 E2 E3 E4 E5. unfold gaps_coherent in *.
    cbn [set_audit audit prev_u]. by rewrite E1, E2, E3, E4, E5. }
  unfold Normalize.process_line.
  destruct (loads line) as [raw|]; [|by apply Hw].
  destruct (is_depth_delta raw) as [[]|]; [|by apply Hw|done].
  destruct (normalize_delta raw) as [d|]; [|by apply Hw].
  apply process_kept_gaps; [cbn; lia|done].
Qed.

Lemma process_lines_gaps (lines : list bytes) : ∀ st,
  gaps_coherent st → gaps_coherent (fst (process_lines lines st)).
Proof.
  induction lines as [|l ls IH]; intros st H; [done|].
  cbn [Normalize.process_lines].
  pose proof (process_line_gaps l st H) as H1.
  destruct (process_line l st) as [s' [e|]]; [done|]. by apply IH.
Qed.

Lemma gaps_coherent_start : gaps_coherent start.
Proof. unfold gaps_coherent. cbn. repeat split; try done. Qed.

(** Whatever the lines, and whether the pass runs to its end or not, the
    gap record of the audit is coherent: [continuity_ok] is true exactly
    when [gaps] is 0, [first_gap] is absent exactly when [gaps] is 0, and
    the line number of the first gap lies between 1 and [raw_lines]. *)
Theorem gap_record_coherent (lines : list bytes) :
  let a := audit (fst (process_lines lines start)) in
  0 ≤ Audit.gaps a ∧
  (Audit.continuity_ok a = true ↔ Audit.gaps a = 0) ∧
  (Audit.first_gap a = None ↔ Audit.gaps a = 0) ∧
  (∀ g, Audit.first_gap a = Some g → 1 ≤ g_line g ≤ Audit.raw_lines a).
Proof.
  cbn zeta.
  destruct (process_lines_gaps lines start gaps_coherent_start)
    as (_ & H1 & H2 & H3 & H4 & _). done.
Qed.

(** The baseline is reset after a gap, so the kept line that follows a gap
    is never a gap, nor is the first kept line: at most every second kept
    line is counted as a gap. *)
Theorem gaps_at_most_half_of_kept (lines : list bytes) :
  let a := audit (fst (process_lines lines start)) in
  2 * Audit.gaps a ≤ Audit.kept_lines a.
Proof.
  cbn zeta. apply gaps_coherent_weaken, process_lines_gaps,
    gaps_coherent_start.
Qed.

End PassMore.

(* ===================================================================== *)
(** * The pass over a directory                                           *)
(* ===================================================================== *)

(** ** Listing the raw files *)

(** What is left of [s] after the literal [p], if [s] starts with it. *)
Fixpoint strip_prefix (p s : string) : option string :=
  match p, s with
  | EmptyString, _ => Some s
  | String a p', String b s' =>
      if Ascii.eqb a b then strip_prefix p' s' else None
  | String _ _, EmptyString => None
  end.

(** [s] ends with the literal [suf]. *)
Fixpoint ends_with (suf s : string) : bool :=
  String.eqb s suf ||
  match s with
  | EmptyString => false
  | String _ s' => ends_with suf s'
  end.

(** The pattern [deltas_utcmin_*.jsonl]: the literal prefix, any
    characters, the literal suffix. *)
Definition matches_glob (name : string) : bool :=
  match strip_prefix "deltas_utcmin_" name with
  | Some rest => ends_with ".jsonl" rest
  | None => false
  end.

(** The order of [sorted] on the paths of one directory: that of their
    names, character by character. *)
Definition name_le (a b : string) : Prop := String.leb a b = true.

#[global] Instance name_le_dec : RelDecision name_le.
Proof. intros a b. unfold name_le. apply _. Defined.

(** [list_raw_files], on the directory as the map from the names of its
    files to their contents (each entry is a file). *)
Definition list_raw_files (raw : gmap string bytes) : list string :=
  sorting.merge_sort name_le (filter (λ n, matches_glob n = true) (elements (dom raw))).

(** The index of the last ["."] of [s]: [s.rfind(".")]. *)
Fixpoint rfind_dot (s : string) : option nat :=
  match s with
  | EmptyString => None
  | String c s' =>
      match rfind_dot s' with
      | Some j => Some (S j)
      | None => if Ascii.eqb c "." then Some 0%nat else None
      end
  end.

(** [Path.stem]: the name without its last suffix; a name that starts or
    ends with its only dot has no suffix. *)
Definition stem (name : string) : string :=
  match rfind_dot name with
  | Some i =>
      if (0 <? i)%nat && (i <? String.length name - 1)%nat
      then substring 0 i name
      else name
  | None => name
  end.

(** ** The loop over the raw files *)

Section Directory.

Variable loads : bytes → option value.
Variable dumps_delta : delta → option bytes.
Variable dumps_px : price_record → option bytes.
Variable to_fp_other : value → Z → exc Z.
Variable dump_audit : string → string → string → Z → Audit.t → bytes.

(** [int(time.time())] when the audit of the raw file of that name is
    written. *)
Variable now : string → Z.

Local Abbreviation process_raw_file :=
  (process_raw_file loads dumps_delta dumps_px to_fp_other dump_audit).

(** [for raw_file in ...]: nothing catches the exception of a pass, so it
    ends the loop. *)
Fixpoint process_files (names : list string) (fs : tree)
  : option exn * tree :=
  match names with
  | [] => (None, fs)
  | name :: names =>
      match process_raw_file (stem name) (now name) fs with
      | (Aborted e, fs) => (Some e, fs)
      | (_, fs) => process_files names fs
      end
  end.

(** [process_raw_dir], given the three output directories (there, or made
    by [mkdir]); the result is the exception that ended it, if any, and the
    files it leaves. *)
Definition process_raw_dir (fs : tree) : option exn * tree :=
  process_files (list_raw_files (raw_dir fs)) fs.

End Directory.

(** ** Facts on names *)

Lemma strip_prefix_spec (p s r : string) :
  strip_prefix p s = Some r ↔ s = p +:+ r.
Proof.
  revert s. induction p as [|a p IH]; intros s; cbn.
  - split; [by intros [= ->]|by intros ->].
  - destruct s as [|b s]; [done|].
    destruct (Ascii.eqb_spec a b) as [->|Hne].
    + rewrite IH. split; [by intros ->|by intros [= ->]].
    + split; [done|]. intros [= -> _]. done.
Qed.

Lemma ends_with_spec (suf s : string) :
  ends_with suf s = true ↔ ∃ a, s = a +:+ suf.
Proof.
  induction s as [|c s IH]; cbn [ends_with].
  - rewrite orb_false_r, String.eqb_eq. split.
    + intros <-. by exists "".
    + intros [[|??] H]; [done|discriminate H].
  - rewrite orb_true_iff, String.eqb_eq, IH. split.
    + intros [<-|[a ->]]; [by exists ""|by exists (String c a)].
    + intros [[|d a] H]; [by left|].
      injection H as <- ->. right. by exists a.
Qed.

Lemma matches_glob_spec (name : string) :
  matches_glob name = true ↔
  ∃ mid, name = "deltas_utcmin_" +:+ mid +:+ ".jsonl".
Proof.
  unfold matches_glob. split.
  - destruct (strip_prefix _ name) as [rest|] eqn:E; [|done].
    apply strip_prefix_spec in E as ->.
    intros [mid ->]%ends_with_spec. by exists mid.
  - intros [mid ->].
    assert (E : strip_prefix "deltas_utcmin_"
                  ("deltas_utcmin_" +:+ mid +:+ ".jsonl")
                = Some (mid +:+ ".jsonl")) by by apply strip_prefix_spec.
    rewrite E. apply ends_with_spec. by exists mid.
Qed.

Lemma append_inj_l (x a b : string) : a +:+ x = b +:+ x → a = b.
Proof.
  revert b. induction a as [|c a IH]; intros [|d b] H.
  - done.
  - exfalso. apply (f_equal String.length) in H.
    rewrite !length_append in H. cbn in H. lia.
  - exfalso. apply (f_equal String.length) in H.
    rewrite !length_append in H. cbn in H. lia.
  - injection H as -> H. f_equal. by apply IH.
Qed.

Lemma rfind_dot_jsonl (a : string) :
  rfind_dot (a +:+ ".jsonl") = Some (String.length a).
Proof.
  induction a as [|c a IH]; [done|].
  change (String c a +:+ ".jsonl") with (String c (a +:+ ".jsonl")).
  cbn [rfind_dot String.length]. by rewrite IH.
Qed.

Lemma substring_prefix (a b : string) :
  substring 0 (String.length a) (a +:+ b) = a.
Proof.
  induction a as [|c a IH].
  - by destruct b.
  - change (String c a +:+ b) with (String c (a +:+ b)).
    cbn [String.length substring]. by rewrite IH.
Qed.

(** The stem of [a.jsonl] is [a], for [a] not empty. *)
Lemma stem_jsonl (a : string) : a ≠ "" → stem (a +:+ ".jsonl") = a.
Proof.
  intros Ha. unfold stem. rewrite rfind_dot_jsonl, length_append.
  destruct a as [|c a]; [done|]. cbn [String.length].
  replace (0 <? S (String.length a))%nat with true
    by (symmetry; apply Nat.ltb_lt; lia).
  replace (S (String.length a) <? S (String.length a) + 6 - 1)%nat with true
    by (symmetry; apply Nat.ltb_lt; lia).
  cbn [andb]. apply (substring_prefix (String c a)).
Qed.

Lemma stem_matching (name : string) :
  matches_glob name = true → stem name +:+ ".jsonl" = name.
Proof.
  intros [mid ->]%matches_glob_spec.
  change ("deltas_utcmin_" +:+ mid +:+ ".jsonl")
    with (("deltas_utcmin_" +:+ mid) +:+ ".jsonl") at 1 2.
  by rewrite stem_jsonl.
Qed.

(** ** What the listing holds *)

Lemma list_raw_files_elem (raw : gmap string bytes) (n : string) :
  n ∈ list_raw_files raw ↔ is_Some (raw !! n) ∧ matches_glob n = true.
Proof.
  unfold list_raw_files.
  rewrite sorting.merge_sort_Permutation, list_elem_of_filter, elem_of_elements,
    elem_of_dom. tauto.
Qed.

Lemma list_raw_files_NoDup (raw : gmap string bytes) :
  NoDup (list_raw_files raw).
Proof.
  unfold list_raw_files. rewrite sorting.merge_sort_Permutation.
  apply NoDup_filter, NoDup_elements.
Qed.

Lemma list_raw_files_stem (raw : gmap string bytes) (n : string) :
  n ∈ list_raw_files raw → stem n +:+ ".jsonl" = n.
Proof. intros [_ H]%list_raw_files_elem. by apply stem_matching. Qed.

#[local] Instance name_le_total : Total name_le.
Proof. intros a b. apply String.leb_total. Qed.

(** [list_raw_files] gives the names of the files of the directory that
    consist of [deltas_utcmin_], any characters and [.jsonl], and no other
    name; each once, in ascending order; and each is its stem followed by
    [.jsonl]. *)
Theorem list_raw_files_spec (raw : gmap string bytes) :
  (∀ n, n ∈ list_raw_files raw ↔
          is_Some (raw !! n) ∧
          ∃ mid, n = "deltas_utcmin_" +:+ mid +:+ ".jsonl") ∧
  NoDup (list_raw_files raw) ∧
  Sorted.Sorted name_le (list_raw_files raw) ∧
  (∀ n, n ∈ list_raw_files raw → stem n +:+ ".jsonl" = n).
Proof.
  split; [|split; [|split]].
  - intros n. by rewrite list_raw_files_elem, matches_glob_spec.
  - apply list_raw_files_NoDup.
  - unfold list_raw_files. apply (sorting.Sorted_merge_sort name_le).
  - apply list_raw_files_stem.
Qed.

(** ** What the loop does *)

Lemma process_files_cons loads dumps_delta dumps_px to_fp_other dump_audit
    (now : string → Z) (n : string) (ns : list string) (fs : tree) :
  process_files loads dumps_delta dumps_px to_fp_other dump_audit now
    (n :: ns) fs
  = match process_raw_file loads dumps_delta dumps_px to_fp_other dump_audit
            (stem n) (now n) fs with
    | (Aborted e, fs) => (Some e, fs)
    | (_, fs) =>
        process_files loads dumps_delta dumps_px to_fp_other dump_audit now
          ns fs
    end.
Proof. done. Qed.

Section DirectoryFacts.

Variable loads : bytes → option value.
Variable dumps_delta : delta → option bytes.
Variable dumps_px : price_record → option bytes.
Variable to_fp_other : value → Z → exc Z.
Variable dump_audit : string → string → string → Z → Audit.t → bytes.

Local Abbreviation process_raw_file :=
  (process_raw_file loads dumps_delta dumps_px to_fp_other dump_audit).
Local Abbreviation process_files :=
  (process_files loads dumps_delta dumps_px to_fp_other dump_audit).
Local Abbreviation process_raw_dir :=
  (process_raw_dir loads dumps_delta dumps_px to_fp_other dump_audit).

(** The files that the pass over the raw file of stem [s] may write. *)
Definition untouched_but (ss : list string) (fs fs' : tree) : Prop :=
  raw_dir fs' = raw_dir fs ∧
  (∀ f, (∀ s, s ∈ ss → f ≠ s +:+ ".fp.jsonl") →
        norm_dir fs' !! f = norm_dir fs !! f) ∧
  (∀ f, (∀ s, s ∈ ss → f ≠ s +:+ ".prices.jsonl") →
        prices_dir fs' !! f = prices_dir fs !! f) ∧
  (∀ f, (∀ s, s ∈ ss → f ≠ s +:+ ".audit.json") →
        audit_dir fs' !! f = audit_dir fs !! f).

Lemma untouched_but_refl (ss : list string) (fs : tree) :
  untouched_but ss fs fs.
Proof. by repeat split. Qed.

Lemma untouched_but_trans (ss ss' : list string) (fs fs1 fs2 : tree) :
  untouched_but ss fs fs1 → untouched_but ss' fs1 fs2 →
  untouched_but (ss ++ ss') fs fs2.
Proof.
  intros (R1 & N1 & P1 & A1) (R2 & N2 & P2 & A2).
  split; [congruence|]. repeat split; intros f Hf.
  - rewrite N2, N1; [done| |]; intros s' Hs'; apply Hf, elem_of_app; auto.
  - rewrite P2, P1; [done| |]; intros s' Hs'; apply Hf, elem_of_app; auto.
  - rewrite A2, A1; [done| |]; intros s' Hs'; apply Hf, elem_of_app; auto.
Qed.

Lemma is_Some_insert_mono (m : gmap string bytes) (k : string) (v : bytes)
    (f : string) :
  is_Some (m !! f) → is_Some (<[k:=v]> m !! f).
Proof.
  intros. rewrite lookup_insert_is_Some. destruct (decide (k = f)); auto.
Qed.

Lemma complete_insert (s : string) (fs fs' : tree) :
  (∀ f, is_Some (norm_dir fs !! f) → is_Some (norm_dir fs' !! f)) →
  (∀ f, is_Some (prices_dir fs !! f) → is_Some (prices_dir fs' !! f)) →
  (∀ f, is_Some (audit_dir fs !! f) → is_Some (audit_dir fs' !! f)) →
  complete s fs → complete s fs'.
Proof. intros Hn Hp Ha (? & ? & ?). repeat split; auto. Qed.

Lemma process_raw_file_effect (s : string) (t : Z) (fs : tree) :
  let r := process_raw_file s t fs in
  untouched_but [s] fs (snd r) ∧
  (∀ s', complete s' fs → complete s' (snd r)) ∧
  (∀ e, fst r = Aborted e →
        audit_dir (snd r) = audit_dir fs ∧ ¬ complete s fs) ∧
  ((∀ e, fst r ≠ Aborted e) → complete s (snd r)).
Proof.
  cbn zeta. destruct (decide (complete s fs)) as [Hc|Hc].
  { rewrite (process_complete _ _ _ _ _ _ _ _ Hc). cbn [fst snd].
    split; [apply untouched_but_refl|]. split; [done|]. by split. }
  rewrite (process_incomplete _ _ _ _ _ _ _ _ Hc).
  destruct (raw_dir fs !! _) as [data|].
  2:{ cbn [fst snd]. split; [apply untouched_but_refl|].
      split; [done|]. split; [done|]. intros H.
      by destruct (H FileNotFoundError). }
  cbn zeta. destruct (process_lines _ _ _ _ _ _) as [st [e|]];
    cbn [fst snd norm_dir prices_dir audit_dir raw_dir].
  - split; [|split; [|split]].
    + split; [done|]. cbn [norm_dir prices_dir audit_dir].
      repeat split; intros f Hf; try done;
        apply lookup_insert_ne; intros Heq;
        (assert (Hin : s ∈ [s]) by by left); by destruct (Hf s Hin).
    + intros s'. apply complete_insert; cbn; try done;
        intros f; apply is_Some_insert_mono.
    + done.
    + intros H. by destruct (H e).
  - split; [|split; [|split]].
    + split; [done|]. cbn [norm_dir prices_dir audit_dir].
      repeat split; intros f Hf; try done;
        apply lookup_insert_ne; intros Heq;
        (assert (Hin : s ∈ [s]) by by left); by destruct (Hf s Hin).
    + intros s'. apply complete_insert; cbn; try done;
        intros f; apply is_Some_insert_mono.
    + done.
    + intros _. repeat split; cbn; by rewrite lookup_insert_eq.
Qed.

Lemma process_files_effect (now : string → Z) (names : list string) :
  ∀ fs,
  untouched_but (stem <$> names) fs (snd (process_files now names fs)) ∧
  (∀ s', complete s' fs → complete s' (snd (process_files now names fs))).
Proof.
  induction names as [|n ns IH]; intros fs.
  { cbn. split; [apply untouched_but_refl|done]. }
  rewrite process_files_cons. cbn [fmap list_fmap].
  pose proof (process_raw_file_effect (stem n) (now n) fs) as (U & C & _).
  destruct (process_raw_file (stem n) (now n) fs) as [o fs1].
  cbn [fst snd] in U, C.
  destruct (IH fs1) as [U' C'].
  destruct o; cbn [snd];
    first [ split; [by apply (untouched_but_trans [stem n] _ _ fs1)|auto]
          | split; [|done];
            apply (untouched_but_trans [stem n] _ _ fs1); [done|];
            apply untouched_but_refl ].
Qed.

Lemma process_files_clean (now : string → Z) (names : list string) :
  ∀ fs fs', process_files now names fs = (None, fs') →
  Forall (λ n, complete (stem n) fs') names.
Proof.
  induction names as [|n ns IH]; intros fs fs' H; [constructor|].
  rewrite process_files_cons in H.
  pose proof (process_raw_file_effect (stem n) (now n) fs)
    as (_ & _ & _ & Hc).
  destruct (process_raw_file (stem n) (now n) fs) as [o fs1].
  cbn [fst snd] in Hc.
  assert (Hn : complete (stem n) fs1 ∧ process_files now ns fs1 = (None, fs')).
  { destruct o; [split; [by apply Hc|done]..|done]. }
  destruct Hn as [Hn Hns]. constructor; [|by apply (IH fs1)].
  pose proof (process_files_effect now ns fs1) as [_ Hm].
  rewrite Hns in Hm. by apply Hm.
Qed.

Lemma process_files_skip (now : string → Z) (names : list string)
    (fs : tree) :
  Forall (λ n, complete (stem n) fs) names →
  process_files now names fs = (None, fs).
Proof.
  induction 1 as [|n ns Hn _ IH]; [done|].
  rewrite process_files_cons.
  by rewrite (process_complete _ _ _ _ _ _ _ _ Hn).
Qed.

Lemma process_files_abort (now : string → Z) (names : list string) (e : exn) :
  ∀ fs fs', process_files now names fs = (Some e, fs') →
  ∃ pre name post fs1,
    names = pre ++ name :: post ∧
    process_files now pre fs = (None, fs1) ∧
    process_raw_file (stem name) (now name) fs1 = (Aborted e, fs').
Proof.
  induction names as [|n ns IH]; intros fs fs' H; [done|].
  rewrite process_files_cons in H.
  destruct (process_raw_file (stem n) (now n) fs) as [o fs1] eqn:E.
  assert (Hrec : (∀ e', o ≠ Aborted e') →
            process_files now ns fs1 = (Some e, fs') →
            ∃ pre name post fs2,
              n :: ns = pre ++ name :: post ∧
              process_files now pre fs = (None, fs2) ∧
              process_raw_file (stem name) (now name) fs2 = (Aborted e, fs')).
  { intros Ho H'. destruct (IH _ _ H') as (pre & name & post & fs2 & -> & Hp & Hf).
    exists (n :: pre), name, post, fs2. split; [done|]. split; [|done].
    rewrite process_files_cons, E. by destruct o; [..|destruct (Ho e0)]. }
  destruct o as [| |e'].
  - by apply Hrec.
  - by apply Hrec.
  - injection H as -> ->. by exists [], n, ns, fs.
Qed.

Lemma stems_NoDup (raw : gmap string bytes) :
  NoDup (stem <$> list_raw_files raw).
Proof.
  apply NoDup_fmap_2_strong; [|apply list_raw_files_NoDup].
  intros a b Ha Hb Hs. apply list_raw_files_stem in Ha, Hb. congruence.
Qed.

(** The pass over a directory changes no raw file; the only files it
    writes are the three outputs of the raw files it lists; and what was
    complete before is complete after. *)
Theorem process_raw_dir_writes_only_outputs (now : string → Z) (fs : tree) :
  let fs' := snd (process_raw_dir now fs) in
  let names := list_raw_files (raw_dir fs) in
  raw_dir fs' = raw_dir fs ∧
  (∀ f, (∀ n, n ∈ names → f ≠ stem n +:+ ".fp.jsonl") →
        norm_dir fs' !! f = norm_dir fs !! f) ∧
  (∀ f, (∀ n, n ∈ names → f ≠ stem n +:+ ".prices.jsonl") →
        prices_dir fs' !! f = prices_dir fs !! f) ∧
  (∀ f, (∀ n, n ∈ names → f ≠ stem n +:+ ".audit.json") →
        audit_dir fs' !! f = audit_dir fs !! f) ∧
  (∀ s, complete s fs → complete s fs').
Proof.
  cbn zeta.
  destruct (process_files_effect now (list_raw_files (raw_dir fs)) fs)
    as ((R & N & P & A) & C).
  split; [done|].
  split; [|split; [|split]];
    [intros f Hf; apply N|intros f Hf; apply P|
     intros f Hf; apply A|exact C];
    intros s (n & -> & Hn)%list_elem_of_fmap; by apply Hf.
Qed.

(** When the pass over a directory runs to its end, every raw file it
    lists is complete, and a second pass over the directory changes
    nothing, whatever the clock. *)
Theorem clean_run_then_rerun_is_noop (now : string → Z) (fs fs' : tree) :
  process_raw_dir now fs = (None, fs') →
  (∀ n, n ∈ list_raw_files (raw_dir fs) → complete (stem n) fs') ∧
  (∀ now', process_raw_dir now' fs' = (None, fs')).
Proof.
  intros H. pose proof (process_files_clean _ _ _ _ H) as Hc.
  pose proof (process_files_effect now (list_raw_files (raw_dir fs)) fs)
    as ((R & _) & _).
    split; [by apply Forall_forall|].
  intros now'. 
  assert (Hr : raw_dir fs' = raw_dir fs).
  { change (process_raw_dir now fs) with
      (process_files now (list_raw_files (raw_dir fs)) fs) in H.
    by rewrite H in R. }
  change (process_raw_dir now' fs') with
    (process_files now' (list_raw_files (raw_dir fs')) fs').
  rewrite Hr. by apply process_files_skip.
Qed.

(** When a pass raises, the pass over the directory ends there: the raw
    files listed before that one are complete, the audit of that one is
    not written, and the outputs of the raw files listed after it are as
    they were. *)
Theorem abort_stops_directory (now : string → Z) (fs fs' : tree) (e : exn) :
  process_raw_dir now fs = (Some e, fs') →
  ∃ pre name post,
    list_raw_files (raw_dir fs) = pre ++ name :: post ∧
    (∀ n, n ∈ pre → complete (stem n) fs') ∧
    ¬ complete (stem name) fs ∧
    audit_dir fs' !! (stem name +:+ ".audit.json")
      = audit_dir fs !! (stem name +:+ ".audit.json") ∧
    (∀ n, n ∈ post →
       norm_dir fs' !! (stem n +:+ ".fp.jsonl")
         = norm_dir fs !! (stem n +:+ ".fp.jsonl") ∧
       prices_dir fs' !! (stem n +:+ ".prices.jsonl")
         = prices_dir fs !! (stem n +:+ ".prices.jsonl") ∧
       audit_dir fs' !! (stem n +:+ ".audit.json")
         = audit_dir fs !! (stem n +:+ ".audit.json")).
Proof.
  intros H.
  change (process_raw_dir now fs) with
    (process_files now (list_raw_files (raw_dir fs)) fs) in H.
  destruct (process_files_abort _ _ _ _ _ H)
    as (pre & name & post & fs1 & Hnames & Hpre & Hfile).
  exists pre, name, post. split; [done|].
  pose proof (stems_NoDup (raw_dir fs)) as Hnd.
  rewrite Hnames, fmap_app, fmap_cons in Hnd.
  apply NoDup_app in Hnd as (_ & Hd1 & Hnd).
  apply NoDup_cons in Hnd as [Hd2 _].
  pose proof (process_files_effect now pre fs) as [U1 C1].
  rewrite Hpre in U1, C1. cbn [snd] in U1, C1.
  pose proof (process_raw_file_effect (stem name) (now name) fs1)
    as (U2 & C2 & A2 & _).
  rewrite Hfile in U2, C2, A2. cbn [fst snd] in U2, C2, A2.
  destruct (A2 e eq_refl) as [Ha Hnc].
  destruct U1 as (R1 & N1 & P1 & A1).
  assert (Hpre_ne : ∀ x s, s ∈ stem <$> pre →
            stem name +:+ x ≠ s +:+ x).
  { intros x s Hs Heq. apply append_inj_l in Heq as <-.
    by apply (Hd1 (stem name)); [|left]. }
  split; [|split; [|split]].
  - intros n Hn. apply C2.
    apply (proj1 (Forall_forall _ _) (process_files_clean _ _ _ _ Hpre) n Hn).
  - intros (Hn & Hp & Ha'). apply Hnc. repeat split.
    + by rewrite N1; [|intros s Hs; apply Hpre_ne].
    + by rewrite P1; [|intros s Hs; apply Hpre_ne].
    + by rewrite A1; [|intros s Hs; apply Hpre_ne].
  - rewrite Ha. apply A1. intros s Hs. by apply Hpre_ne.
  - intros n Hn.
    pose proof (untouched_but_trans _ _ _ _ _ (conj R1 (conj N1 (conj P1 A1))) U2)
      as (_ & N & P & A).
    assert (Hne : ∀ x s, s ∈ (stem <$> pre) ++ [stem name] →
              stem n +:+ x ≠ s +:+ x).
    { intros x s Hs Heq. apply append_inj_l in Heq as <-.
      apply elem_of_app in Hs as [Hs|Hs%list_elem_of_singleton].
      - apply (Hd1 (stem n)); [done|]. right. by apply list_elem_of_fmap_2.
      - apply Hd2. rewrite <- Hs. by apply list_elem_of_fmap_2. }
    repeat split; [apply N|apply P|apply A]; intros s Hs; by apply Hne.
Qed.

End DirectoryFacts.

(* ===================================================================== *)
(** * The normalizer at concrete runs                                     *)
(* ===================================================================== *)

(** The decoder of the example, with one more line: [5] decodes to the
    number 5. *)
Definition demo_loads_scalar (line : bytes) : option value :=
  match line with
  | [x35; x0a] => Some (VInt 5)
  | _ => demo_loads line
  end.

Definition demo_process_scalar : string → Z → tree → outcome * tree :=
  process_raw_file demo_loads_scalar demo_dumps_delta demo_dumps_px
    demo_to_fp_other demo_dump_audit.

(** A raw file with a delta, the number 5 and another delta. *)
Definition demo_scalar_tree : tree :=
  {| raw_dir :=
       {["deltas_utcmin_1.jsonl" := [x41; x0a; x35; x0a; x42; x0a]]};
     norm_dir := ∅; prices_dir := ∅; audit_dir := ∅ |}.

(** A raw file with an object that is no delta and a line that is no
    JSON. *)
Definition demo_unkept_tree : tree :=
  {| raw_dir := {["deltas_utcmin_1.jsonl" := [x43; x0a; x58; x0a]]};
     norm_dir := ∅; prices_dir := ∅; audit_dir := ∅ |}.

(** A directory with two raw files and a file of another name. *)
Definition demo_dir : tree :=
  {| raw_dir :=
       {["deltas_utcmin_2.jsonl" := [x43; x0a]]} ∪
       {["notes.txt" := [x41; x0a]]} ∪
       {["deltas_utcmin_1.jsonl" := [x41; x0a; x42; x0a]]};
     norm_dir := ∅; prices_dir := ∅; audit_dir := ∅ |}.

(** A directory with three raw files, the second with the number 5 on its
    second line. *)
Definition demo_dir_scalar : tree :=
  {| raw_dir :=
       {["deltas_utcmin_3.jsonl" := [x42; x0a]]} ∪
       {["deltas_utcmin_2.jsonl" := [x41; x0a; x35; x0a; x42; x0a]]} ∪
       {["deltas_utcmin_1.jsonl" := [x41; x0a]]};
     norm_dir := ∅; prices_dir := ∅; audit_dir := ∅ |}.

Definition demo_now (name : string) : Z := 1700000000.

Definition demo_normalized : delta :=
  {| d_exchange := VStr "binance"; d_symbol := VStr "BTCUSDT";
     d_conn_id := VInt 3; d_recv_ts_ns := VInt 1700000000000000000;
     d_event_ts_ns := VInt 1700000000000000000;
     d_U := VInt 1; d_u := VInt 5;
     d_b := [(10000000000, 200000000)];
     d_a := [(10100000000, 300000000)] |}.

Example list_raw_files_example :
  list_raw_files (raw_dir demo_dir)
    = ["deltas_utcmin_1.jsonl"; "deltas_utcmin_2.jsonl"] ∧
  stem "deltas_utcmin_1.jsonl" = "deltas_utcmin_1" ∧
  stem ".jsonl" = ".jsonl" ∧ stem "a.b.jsonl" = "a.b" ∧ stem "a." = "a.".
Proof. by vm_compute. Qed.


Lemma scalar_line_aborts_file_witness :
  demo_process_scalar "deltas_utcmin_1" 1700000000 demo_scalar_tree
  = (Aborted TypeError,
     {| raw_dir := raw_dir demo_scalar_tree;
        norm_dir := {["deltas_utcmin_1.fp.jsonl" := [x64; x0a]]};
        prices_dir := {["deltas_utcmin_1.prices.jsonl" := [x70; x0a]]};
        audit_dir := ∅ |}).
Proof.
  assert (Hc : ¬ complete "deltas_utcmin_1" demo_scalar_tree).
  { intros ([x Hx] & _). vm_compute in Hx. discriminate Hx. }
  assert (Hpre : process_lines demo_loads_scalar demo_dumps_delta
                   demo_dumps_px demo_to_fp_other [[x41; x0a]] start
                 = (fst (demo_pass [[x41; x0a]] start), None))
    by (vm_compute; reflexivity).
  pose proof (scalar_line_aborts_file demo_loads_scalar demo_dumps_delta
                demo_dumps_px demo_to_fp_other demo_dump_audit
                "deltas_utcmin_1" 1700000000 demo_scalar_tree
                [x41; x0a; x35; x0a; x42; x0a]
                [[x41; x0a]] [[x42; x0a]] [x35; x0a] (VInt 5)
                (fst (demo_pass [[x41; x0a]] start))
                Hc eq_refl eq_refl Hpre eq_refl I) as H.
  unfold demo_process_scalar. rewrite H. vm_compute. reflexivity.
Defined.

Lemma outputs_have_kept_records_witness :
  ∃ outs_n outs_p,
    fnorm (fst (demo_pass demo_lines start)) = records outs_n ∧
    fpx (fst (demo_pass demo_lines start)) = records outs_p ∧
    Z.of_nat (length outs_n)
      = Audit.kept_lines (audit (fst (demo_pass demo_lines start))) ∧
    (length outs_p ≤ length outs_n)%nat.
Proof.
  assert (H : demo_pass demo_lines start
              = (fst (demo_pass demo_lines start), None))
    by (vm_compute; reflexivity).
  exact (outputs_have_kept_records demo_loads demo_dumps_delta demo_dumps_px
           demo_to_fp_other demo_lines _ H).
Defined.

Lemma normalize_delta_fields_witness :
  getitem (demo_delta 1 5) "U" = Ok (VInt 1) ∧
  (∃ ms, getitem (demo_delta 1 5) "event_ts_ms" = Ok ms ∧
         py_mul_int ms 1000000 = Ok (VInt 1700000000000000000)).
Proof.
  assert (H : normalize_delta demo_to_fp_other (demo_delta 1 5)
              = Ok demo_normalized) by (vm_compute; reflexivity).
  pose proof (normalize_delta_fields demo_to_fp_other (demo_delta 1 5)
                demo_normalized H)
    as (_ & _ & _ & _ & H5 & H6 & _).
  exact (conj H6 H5).
Defined.

Lemma unkept_file_completes_empty_witness :
  ∃ a,
    process_raw_file demo_loads demo_dumps_delta demo_dumps_px
      demo_to_fp_other demo_dump_audit
      "deltas_utcmin_1" 1700000000 demo_unkept_tree =
      (Completed,
       {| raw_dir := raw_dir demo_unkept_tree;
          norm_dir :=
            <["deltas_utcmin_1" +:+ ".fp.jsonl" := []]>
              (norm_dir demo_unkept_tree);
          prices_dir :=
            <["deltas_utcmin_1" +:+ ".prices.jsonl" := []]>
              (prices_dir demo_unkept_tree);
          audit_dir :=
            <["deltas_utcmin_1" +:+ ".audit.json" :=
                demo_dump_audit ("deltas_utcmin_1" +:+ ".jsonl")
                  ("deltas_utcmin_1" +:+ ".fp.jsonl")
                  ("deltas_utcmin_1" +:+ ".prices.jsonl") 1700000000 a]>
              (audit_dir demo_unkept_tree) |}) ∧
    Audit.kept_lines a = 0 ∧ Audit.gaps a = 0 ∧
    Audit.continuity_ok a = true ∧
    Audit.raw_lines a
      = Z.of_nat (length (iter_lines [x43; x0a; x58; x0a])) ∧
    Audit.bad_json a + Audit.skipped_schema a + Audit.normalize_errors a
      = Audit.raw_lines a.
Proof.
  apply (unkept_file_completes_empty demo_loads demo_dumps_delta
           demo_dumps_px demo_to_fp_other demo_dump_audit
           "deltas_utcmin_1" 1700000000 demo_unkept_tree
           [x43; x0a; x58; x0a]).
  - intros ([x Hx] & _). vm_compute in Hx. discriminate Hx.
  - by vm_compute.
  - assert (iter_lines [x43; x0a; x58; x0a] = [[x43; x0a]; [x58; x0a]])
      as -> by by vm_compute.
    constructor; [|constructor; [|constructor]].
    + right. exists (VDict []). split; [done|]. by left.
    + by left.
Defined.

Lemma clean_run_then_rerun_is_noop_witness :
  let fs' := snd (process_raw_dir demo_loads demo_dumps_delta demo_dumps_px
                    demo_to_fp_other demo_dump_audit demo_now demo_dir) in
  (∀ n, n ∈ list_raw_files (raw_dir demo_dir) → complete (stem n) fs') ∧
  (∀ now', process_raw_dir demo_loads demo_dumps_delta demo_dumps_px
             demo_to_fp_other demo_dump_audit now' fs' = (None, fs')).
Proof.
  cbn zeta.
  assert (H : process_raw_dir demo_loads demo_dumps_delta demo_dumps_px
                demo_to_fp_other demo_dump_audit demo_now demo_dir
              = (None,
                 snd (process_raw_dir demo_loads demo_dumps_delta
                        demo_dumps_px demo_to_fp_other demo_dump_audit
                        demo_now demo_dir)))
    by (vm_compute; reflexivity).
  exact (clean_run_then_rerun_is_noop demo_loads demo_dumps_delta
           demo_dumps_px demo_to_fp_other demo_dump_audit demo_now
           demo_dir _ H).
Defined.

Lemma abort_stops_directory_witness :
  let fs' := snd (process_raw_dir demo_loads_scalar demo_dumps_delta
                    demo_dumps_px demo_to_fp_other demo_dump_audit demo_now
                    demo_dir_scalar) in
  ∃ pre name post,
    list_raw_files (raw_dir demo_dir_scalar) = pre ++ name :: post ∧
    (∀ n, n ∈ pre → complete (stem n) fs') ∧
    ¬ complete (stem name) demo_dir_scalar ∧
    audit_dir fs' !! (stem name +:+ ".audit.json")
      = audit_dir demo_dir_scalar !! (stem name +:+ ".audit.json") ∧
    (∀ n, n ∈ post →
       norm_dir fs' !! (stem n +:+ ".fp.jsonl")
         = norm_dir demo_dir_scalar !! (stem n +:+ ".fp.jsonl") ∧
       prices_dir fs' !! (stem n +:+ ".prices.jsonl")
         = prices_dir demo_dir_scalar !! (stem n +:+ ".prices.jsonl") ∧
       audit_dir fs' !! (stem n +:+ ".audit.json")
         = audit_dir demo_dir_scalar !! (stem n +:+ ".audit.json")).
Proof.
  cbn zeta.
  assert (H : process_raw_dir demo_loads_scalar demo_dumps_delta
                demo_dumps_px demo_to_fp_other demo_dump_audit demo_now
                demo_dir_scalar
              = (Some TypeError,
                 snd (process_raw_dir demo_loads_scalar demo_dumps_delta
                        demo_dumps_px demo_to_fp_other demo_dump_audit
                        demo_now demo_dir_scalar)))
    by (vm_compute; reflexivity).
  exact (abort_stops_directory demo_loads_scalar demo_dumps_delta
           demo_dumps_px demo_to_fp_other demo_dump_audit demo_now
           demo_dir_scalar _ TypeError H).
Defined.

(** The run of the last example: the first raw file is complete, the
    second has its partial outputs and no audit, the third has no output
    at all. *)
Example abort_example :
  let r := process_raw_dir demo_loads_scalar demo_dumps_delta demo_dumps_px
             demo_to_fp_other demo_dump_audit demo_now demo_dir_scalar in
  fst r = Some TypeError ∧
  norm_dir (snd r) !! "deltas_utcmin_1.fp.jsonl" = Some [x64; x0a] ∧
  audit_dir (snd r) !! "deltas_utcmin_1.audit.json" = Some [x7b; x7d] ∧
  norm_dir (snd r) !! "deltas_utcmin_2.fp.jsonl" = Some [x64; x0a] ∧
  audit_dir (snd r) !! "deltas_utcmin_2.audit.json" = None ∧
  norm_dir (snd r) !! "deltas_utcmin_3.fp.jsonl" = None.
Proof. by vm_compute. Qed.

(** The raw file with the number 5, with an audit left by an earlier
    run. *)
Definition demo_stale_tree : tree :=
  {| raw_dir :=
       {["deltas_utcmin_1.jsonl" := [x41; x0a; x35; x0a; x42; x0a]]};
     norm_dir := ∅; prices_dir := ∅;
     audit_dir := {["deltas_utcmin_1.audit.json" := [x3f]]} |}.

Lemma failed_pass_with_old_audit_is_skipped_witness :
  let fs' := snd (demo_process_scalar "deltas_utcmin_1" 1700000000
                    demo_stale_tree) in
  audit_dir fs' = audit_dir demo_stale_tree ∧
  complete "deltas_utcmin_1" fs' ∧
  demo_process_scalar "deltas_utcmin_1" 1700000060 fs' = (Skipped, fs').
Proof.
  cbn zeta.
  assert (H : demo_process_scalar "deltas_utcmin_1" 1700000000
                demo_stale_tree
              = (Aborted TypeError,
                 snd (demo_process_scalar "deltas_utcmin_1" 1700000000
                        demo_stale_tree)))
    by (vm_compute; reflexivity).
  assert (Hr : is_Some (raw_dir demo_stale_tree
                          !! ("deltas_utcmin_1" +:+ ".jsonl")))
    by (vm_compute; eauto).
  assert (Ha : is_Some (audit_dir demo_stale_tree
                          !! ("deltas_utcmin_1" +:+ ".audit.json")))
    by (vm_compute; eauto).
  exact (failed_pass_with_old_audit_is_skipped demo_loads_scalar
           demo_dumps_delta demo_dumps_px demo_to_fp_other demo_dump_audit
           "deltas_utcmin_1" 1700000000 1700000060 demo_stale_tree _
           TypeError Hr Ha H).
Defined.
